(** * Espresso: the session state machine and its duration formatters

    A shallow embedding of [main.go] of the Espresso tray utility.  The
    program keeps a workstation awake for a chosen duration: a loop
    goroutine owns four local variables (the session), reacts to menu,
    stop, quit and ticker events, and reaches the Windows call
    [SetThreadExecutionState] only through [execOnMainThread].

    Conventions of the embedding:
    - [time.Duration] is an [int64] count of nanoseconds, a [Z] with the
      wrap-around of Go's arithmetic written out where the code can reach it;
    - [float64] is IEEE 754 binary64, taken from [SpecFloat] with
      [prec = 53] and [emax = 1024];
    - Go's [int] is 64 bits wide (the windows/amd64 target);
    - a [time.Time] is an instant, a [Z] count of nanoseconds;
    - effects are logged: every call to the operating system, the tray or
      the notifier is appended to a trace together with the execution
      context that issued it. *)

From Stdlib Require Import ZArith List String Ascii Bool Lia.
From Stdlib Require Import DecimalString SpecFloat.
Import ListNotations.

Local Open Scope Z_scope.

(** ** Machine integers *)

Module Int64.

Definition min_int : Z := - 2 ^ 63.
Definition max_int : Z := 2 ^ 63 - 1.

Definition in_range (n : Z) : Prop := min_int <= n <= max_int.

(** Two's complement wrap-around of a mathematical integer. *)
Definition wrap (n : Z) : Z := (n + 2 ^ 63) mod 2 ^ 64 - 2 ^ 63.

(** The conversion [uint64(x)] of an [int64]. *)
Definition to_uint64 (n : Z) : Z := n mod 2 ^ 64.

(** Saturation, as [time.Time.Sub] does. *)
Definition saturate (n : Z) : Z := Z.max min_int (Z.min max_int n).

End Int64.

(** ** Binary64 arithmetic, as far as [time.Duration] uses it *)

Module Float64.

Definition t : Type := spec_float.

Definition prec : Z := 53.
Definition emax : Z := 1024.

(** [float64(n)] for an integer [n]: round to nearest, ties to even. *)
Definition of_int (n : Z) : t := binary_normalize prec emax n 0 false.

Definition add : t -> t -> t := SFadd prec emax.
Definition div : t -> t -> t := SFdiv prec emax.

(** The integer part of a finite float, the fraction discarded. *)
Definition trunc (x : t) : option Z :=
  match x with
  | S754_zero _ => Some 0
  | S754_finite s m e =>
      let a := match e with
               | Zneg p => Z.shiftr (Zpos m) (Zpos p)
               | _ => Z.shiftl (Zpos m) e
               end in
      Some (if s then - a else a)
  | _ => None
  end.

(** [int(x)]: truncation towards zero; a value that does not fit, an
    infinity or a NaN gives the "integer indefinite" of amd64. *)
Definition to_int (x : t) : Z :=
  match trunc x with
  | Some a =>
      if (Int64.min_int <=? a) && (a <=? Int64.max_int) then a
      else Int64.min_int
  | None => Int64.min_int
  end.

End Float64.

(** ** The part of package [time] that the program calls *)

Module Time.

Definition Duration : Type := Z.
Definition Instant : Type := Z.

Definition Nanosecond : Duration := 1.
Definition Microsecond : Duration := 1000 * Nanosecond.
Definition Millisecond : Duration := 1000 * Microsecond.
Definition Second : Duration := 1000 * Millisecond.
Definition Minute : Duration := 60 * Second.
Definition Hour : Duration := 60 * Minute.

Definition minDuration : Duration := Int64.min_int.
Definition maxDuration : Duration := Int64.max_int.

(** [lessThanHalf x y] reports whether [x + x < y], computed in [uint64]. *)
Definition lessThanHalf (x y : Duration) : bool :=
  (Int64.to_uint64 x + Int64.to_uint64 x) mod 2 ^ 64 <? Int64.to_uint64 y.

(** [d.Round(m)]: the nearest multiple of [m], halfway values away from
    zero; the extreme duration when the result does not fit. *)
Definition Round (d m : Duration) : Duration :=
  if m <=? 0 then d
  else
    let r := Z.rem d m in
    if d <? 0 then
      let r := Int64.wrap (- r) in
      if lessThanHalf r m then Int64.wrap (d + r)
      else
        let d1 := Int64.wrap (Int64.wrap (d - m) + r) in
        if d1 <? d then d1 else minDuration
    else
      if lessThanHalf r m then Int64.wrap (d - r)
      else
        let d1 := Int64.wrap (Int64.wrap (d + m) - r) in
        if d <? d1 then d1 else maxDuration.

(** [d.Hours()], [d.Minutes()], [d.Seconds()]: the whole part and the
    fraction are converted apart and added in binary64. *)
Definition split_float (unit_ : Duration) (d : Duration) : Float64.t :=
  let whole := Z.quot d unit_ in
  let nsec := Z.rem d unit_ in
  Float64.add (Float64.of_int whole)
              (Float64.div (Float64.of_int nsec) (Float64.of_int unit_)).

Definition Hours : Duration -> Float64.t := split_float Hour.
Definition Minutes : Duration -> Float64.t := split_float Minute.
Definition Seconds : Duration -> Float64.t := split_float Second.

(** [t.Add(d)] and [time.Until(t)] at clock reading [now]. *)
Definition Add (t : Instant) (d : Duration) : Instant := t + d.
Definition Until (t now : Instant) : Duration := Int64.saturate (t - now).

End Time.

(** ** The part of package [fmt] that the program calls *)

Module Fmt.

(** The verb [%d] on an integer. *)
Definition itoa (n : Z) : string := NilZero.string_of_int (Z.to_int n).

Definition cat (parts : list string) : string :=
  fold_right String.append EmptyString parts.

End Fmt.

(** ** Mode definitions *)

Record EspressoMode : Type := mkMode {
  Name : string;
  Duration : Time.Duration;
  Desc : string
}.

Definition modes : list EspressoMode := [
  mkMode "Milk" (3 * Time.Minute) "No caffeine, just for testing purposes.";
  mkMode "Drop" (10 * Time.Minute) "Just a drop, almost no caffeine.";
  mkMode "Latte" (30 * Time.Minute) "Gentle boost to get you started.";
  mkMode "Cappuccino" (1 * Time.Hour) "Noticeable caffeine, perfectly balanced.";
  mkMode "Americano" (3 * Time.Hour) "Stronger, long-lasting alertness.";
  mkMode "Espresso" (6 * Time.Hour) "Concentrated, powerful kick.";
  mkMode "Lungo" (8 * Time.Hour) "Super concentrated, extended energy.";
  mkMode "Doppio" (12 * Time.Hour) "Double espresso, full-on focus all day.";
  mkMode "Pure Caffeine" (-1) "Maximum alertness, use with caution."
].

(** ** Formatters *)

Definition formatDuration (d : Time.Duration) : string :=
  let d := Time.Round d Time.Second in
  let totalSeconds := Float64.to_int (Time.Seconds d) in
  let totalSeconds := if totalSeconds <? 0 then 0 else totalSeconds in
  let h := Z.quot totalSeconds 3600 in
  let m := Z.rem (Z.quot totalSeconds 60) 60 in
  let s := Z.rem totalSeconds 60 in
  Fmt.cat [Fmt.itoa h; "h "; Fmt.itoa m; "m "; Fmt.itoa s; "s"]%string.

Definition formatFriendlyDuration (d : Time.Duration) : string :=
  if d <? 0 then "Infinity"%string
  else if (Time.Hour <=? d) && (Z.rem d Time.Hour =? 0) then
    Fmt.cat [Fmt.itoa (Float64.to_int (Time.Hours d)); "h"]%string
  else
    Fmt.cat [Fmt.itoa (Float64.to_int (Time.Minutes d)); "m"]%string.

(** ** Execution contexts and logged calls *)

(** Who runs a piece of code: the goroutine of [main] (which becomes the
    tray's message loop), the OS thread locked by [startExecThread], the
    event loop goroutine of [onReady], or a goroutine started with [go] and
    never joined. *)
Inductive Thread : Type :=
| MainGoroutine
| ExecThread
| LoopGoroutine
| Detached.

(** The two embedded icons, and the files [iconPath()] and [icoffPath()]
    they are written to. *)
Inductive Icon : Type := IconOn | IconOff.

Inductive MenuItem : Type :=
| mInfo | mMode | mTimeLeft | mStop | mQuit
| mPreset (label : string).

Definition ES_CONTINUOUS : Z := 0x80000000.
Definition ES_SYSTEM_REQUIRED : Z := 0x00000001.
Definition ES_DISPLAY_REQUIRED : Z := 0x00000002.

Inductive Call : Type :=
| SetThreadExecutionState (esFlags : Z)
| SystraySetIcon (icon : Icon)
| SystraySetTitle (title : string)
| SystraySetTooltip (tooltip : string)
| AddMenuItem (item : MenuItem) (title tooltip : string)
| AddSeparator
| ItemSetTitle (item : MenuItem) (title : string)
| ItemShow (item : MenuItem)
| ItemHide (item : MenuItem)
| ItemDisable (item : MenuItem)
| ToastPush (title message : string) (icon : Icon)
| ShowAbout
| EnsureResourceFiles
| LoadConfig
| SystrayQuit
| CloseInstanceMutex
| CloseExecStateCh.

Record Effect : Type := mkEffect { on : Thread; call : Call }.

(** ** The session variables of [onReady] *)

Record Vars : Type := mkVars {
  isActive : bool;
  isInfinite : bool;
  sessionEndTime : Time.Instant;
  currentModeName : string
}.

(** Go's zero values, as the [var] block leaves them. *)
Definition zeroVars : Vars := mkVars false false 0 EmptyString.

(** ** A small monad: reader of the context, state, writer of the trace *)

Definition M (A : Type) : Type := Thread -> Vars -> A * Vars * list Effect.

Definition ret {A} (a : A) : M A := fun _ v => (a, v, []).

Definition bind {A B} (c : M A) (k : A -> M B) : M B :=
  fun th v =>
    let '(a, v1, t1) := c th v in
    let '(b, v2, t2) := k a th v1 in
    (b, v2, t1 ++ t2).

Declare Scope go_scope.
Delimit Scope go_scope with go.
Notation "x <- c ;; k" := (bind c (fun x => k))
  (at level 61, c at next level, right associativity) : go_scope.
Notation "c ;; k" := (bind c (fun _ => k))
  (at level 61, right associativity) : go_scope.
Local Open Scope go_scope.

Definition get : M Vars := fun _ v => (v, v, []).
Definition modify (f : Vars -> Vars) : M unit := fun _ v => (tt, f v, []).
Definition do_ (c : Call) : M unit := fun th v => (tt, v, [mkEffect th c]).

(** Run [c] in the context [th]: a [go] statement, or a hand-off. *)
Definition on_thread {A} (th : Thread) (c : M A) : M A := fun _ v => c th v.

Definition set_isActive (b : bool) : M unit :=
  modify (fun v => mkVars b (isInfinite v) (sessionEndTime v) (currentModeName v)).
Definition set_isInfinite (b : bool) : M unit :=
  modify (fun v => mkVars (isActive v) b (sessionEndTime v) (currentModeName v)).
Definition set_sessionEndTime (t : Time.Instant) : M unit :=
  modify (fun v => mkVars (isActive v) (isInfinite v) t (currentModeName v)).
Definition set_currentModeName (s : string) : M unit :=
  modify (fun v => mkVars (isActive v) (isInfinite v) (sessionEndTime v) s).

(** Projections of a run. *)
Definition vars_of {A} (r : A * Vars * list Effect) : Vars := snd (fst r).
Definition trace_of {A} (r : A * Vars * list Effect) : list Effect := snd r.
Definition value_of {A} (r : A * Vars * list Effect) : A := fst (fst r).

(** ** Sleep control *)

Definition allowSleep : M unit :=
  do_ (SetThreadExecutionState ES_CONTINUOUS).

Definition preventSleep : M unit :=
  do_ (SetThreadExecutionState
         (Z.lor (Z.lor ES_CONTINUOUS ES_SYSTEM_REQUIRED) ES_DISPLAY_REQUIRED)).

(** [execOnMainThread fn] sends a closure over the unbuffered channel
    [execStateCh] and waits for [done] to be closed; the only receiver is
    the locked thread of [startExecThread].  Seen from the caller, [fn]
    has run once, on that thread, when the call returns. *)
Definition execOnMainThread (fn : M unit) : M unit := on_thread ExecThread fn.

Definition showToast (title message : string) (icon : Icon) : M unit :=
  do_ (ToastPush title message icon).

(** ** The closures of [onReady] *)

Definition resetState : M unit :=
  set_isActive false ;;
  set_isInfinite false ;;
  set_currentModeName "Decaf" ;;
  execOnMainThread allowSleep ;;
  do_ (SystraySetIcon IconOff) ;;
  do_ (ItemSetTitle mMode "Mode: Decaf") ;;
  do_ (SystraySetTooltip "Espresso: Decaf (Sleep allowed)") ;;
  do_ (ItemHide mTimeLeft).

(** The loop of [startSession] over [modes], with its [break]. *)
Fixpoint findName (ms : list EspressoMode) (d : Time.Duration)
                  (foundName : string) : string :=
  match ms with
  | [] => foundName
  | m :: rest => if Duration m =? d then Name m else findName rest d foundName
  end.

Definition startSession (d : Time.Duration) (now : Time.Instant) : M unit :=
  set_isActive true ;;
  let foundName := findName modes d "Custom" in
  set_currentModeName foundName ;;
  execOnMainThread preventSleep ;;
  do_ (SystraySetIcon IconOn) ;;
  if d <? 0 then
    set_isInfinite true ;;
    do_ (ItemSetTitle mMode (Fmt.cat ["Mode: "; foundName; " (Infinite)"]%string)) ;;
    do_ (ItemHide mTimeLeft) ;;
    do_ (SystraySetTooltip "Espresso: Caffeine High (No Sleep)")
  else
    set_isInfinite false ;;
    set_sessionEndTime (Time.Add now d) ;;
    do_ (ItemSetTitle mMode
           (Fmt.cat ["Mode: "; foundName; " ("; formatFriendlyDuration d; ")"]%string)) ;;
    do_ (ItemShow mTimeLeft).

(** ** The event loop *)

(** What the [select] of the loop goroutine can receive.  A menu click on a
    preset arrives as the preset itself; [now] is the reading of the clock
    while the event is handled. *)
Inductive Event : Type :=
| InfoClicked
| QuitClicked
| StopClicked
| Control (m : EspressoMode) (now : Time.Instant)
| Tick (now : Time.Instant).

Definition newline : string := String (ascii_of_nat 10) EmptyString.

(** One iteration of the [for]/[select]; [false] is the [return] of the
    quit case. *)
Definition handle (ev : Event) : M bool :=
  match ev with
  | InfoClicked =>
      on_thread Detached (do_ ShowAbout) ;;
      ret true
  | QuitClicked =>
      do_ SystrayQuit ;;
      ret false
  | StopClicked =>
      resetState ;;
      showToast "Espresso Stopped" "System is now allowed to sleep" IconOff ;;
      ret true
  | Control m now =>
      let d := Duration m in
      startSession d now ;;
      let durationText :=
        if d <? 0 then "Preventing sleep indefinitely"%string
        else Fmt.cat [Desc m; newline; "Preventing sleep for ";
                      formatFriendlyDuration d]%string in
      showToast (Fmt.cat [Name m; " Mode Started"]%string) durationText IconOn ;;
      ret true
  | Tick now =>
      v <- get ;;
      if negb (isActive v) then ret true
      else if isInfinite v then ret true
      else
        let remaining := Time.Until (sessionEndTime v) now in
        if remaining <=? 0 then
          resetState ;;
          on_thread Detached
            (showToast "Espresso Finished" "System is now allowed to sleep" IconOff) ;;
          ret true
        else
          let timeStr := formatDuration remaining in
          do_ (ItemSetTitle mTimeLeft (Fmt.cat ["Time left: "; timeStr]%string)) ;;
          do_ (SystraySetTooltip
                 (Fmt.cat [currentModeName v; " mode: "; timeStr; " remaining"]%string)) ;;
          ret true
  end.

(** The loop over the events that arrive; the result tells whether the
    loop returned (quit) or is still waiting. *)
Fixpoint loop (evs : list Event) : M bool :=
  match evs with
  | [] => ret false
  | ev :: rest =>
      continue <- handle ev ;;
      if continue then loop rest else ret true
  end.

(** ** [onReady], [onExit] and [main] *)

Fixpoint addModeItems (ms : list EspressoMode) : M unit :=
  match ms with
  | [] => ret tt
  | mode :: rest =>
      let label :=
        Fmt.cat [Name mode; " ("; formatFriendlyDuration (Duration mode); ")"]%string in
      do_ (AddMenuItem (mPreset label) label (Desc mode)) ;;
      addModeItems rest
  end.

(** The first half of [onReady]: resource files, tray icon, configuration
    and the menu. *)
Definition createMenu : M unit :=
  do_ EnsureResourceFiles ;;
  do_ (SystraySetIcon IconOff) ;;
  do_ (SystraySetTitle "Espresso") ;;
  do_ (SystraySetTooltip "Espresso: Decaf (Sleep allowed)") ;;
  do_ LoadConfig ;;
  do_ (AddMenuItem mInfo "About Espresso" "Show info") ;;
  do_ AddSeparator ;;
  do_ (AddMenuItem mMode "Mode: Decaf" "Current mode") ;;
  do_ (ItemDisable mMode) ;;
  do_ (AddMenuItem mTimeLeft "" "") ;;
  do_ (ItemHide mTimeLeft) ;;
  do_ AddSeparator ;;
  addModeItems modes ;;
  do_ AddSeparator ;;
  do_ (AddMenuItem mStop "Decaf (Stop)" "Allow computer to sleep") ;;
  do_ AddSeparator ;;
  do_ (AddMenuItem mQuit "Quit" "Exit program").

(** [onReady]: the menu, the [var] block of the session variables, and the
    loop goroutine with the events it will receive. *)
Definition onReady (evs : list Event) : M bool :=
  createMenu ;;
  modify (fun _ => zeroVars) ;;
  on_thread LoopGoroutine (loop evs).

Definition onExit : M unit :=
  do_ CloseInstanceMutex ;;
  do_ CloseExecStateCh.

(** [systray.Run(onReady, onExit)]: [onExit] runs once [systray.Quit] has
    been called. *)
Definition systray_Run (evs : list Event) : M unit :=
  quit <- onReady evs ;;
  if quit then onExit else ret tt.

(** [main]; [single] is the answer of [enforceSingleInstance], [evs] the
    events the loop will receive. *)
Definition main (single : bool) (evs : list Event) : M unit :=
  if negb single then ret tt
  else
    execOnMainThread allowSleep ;;
    systray_Run evs.

Definition run_main (single : bool) (evs : list Event) : list Effect :=
  trace_of (main single evs MainGoroutine zeroVars).

(** ** The vocabulary of the specification *)

(** The three session states. *)
Inductive State : Type := Decaf | ActiveTimed | ActiveInfinite.

Definition in_state (v : Vars) (st : State) : Prop :=
  match st with
  | Decaf => isActive v = false /\ isInfinite v = false
  | ActiveTimed => isActive v = true /\ isInfinite v = false
  | ActiveInfinite => isActive v = true /\ isInfinite v = true
  end.

(** The session invariant of the data model. *)
Definition session_ok (v : Vars) : Prop :=
  (exists! st, in_state v st) /\
  (isActive v = false -> isInfinite v = false) /\
  (isActive v = true -> currentModeName v <> EmptyString).

(** The part of it that each step of the loop preserves. *)
Definition inv (v : Vars) : Prop :=
  (isActive v = false -> isInfinite v = false) /\
  (isActive v = true -> currentModeName v <> EmptyString).

(** The variables after each event that the loop handles. *)
Fixpoint sessions (evs : list Event) (v : Vars) : list Vars :=
  match evs with
  | [] => []
  | ev :: rest =>
      let r := handle ev LoopGoroutine v in
      vars_of r :: (if value_of r then sessions rest (vars_of r) else [])
  end.

(** The two requests that the program makes of the power gate, as they
    appear in a trace when they went through [execOnMainThread]. *)
Definition allowSleep_request : Effect :=
  mkEffect ExecThread (SetThreadExecutionState 0x80000000).
Definition preventSleep_request : Effect :=
  mkEffect ExecThread (SetThreadExecutionState 0x80000003).

Definition is_power_call (e : Effect) : bool :=
  match call e with
  | SetThreadExecutionState _ => true
  | _ => false
  end.

(** Every call of [SetThreadExecutionState] in a trace, in order. *)
Definition power_calls (t : list Effect) : list Effect := filter is_power_call t.

Definition is_toast (title : string) (e : Effect) : bool :=
  match call e with
  | ToastPush t _ _ => String.eqb t title
  | _ => false
  end.

(** The notifications with a given title in a trace. *)
Definition toasts (title : string) (t : list Effect) : list Effect :=
  filter (is_toast title) t.

Definition finished_toast : Effect :=
  mkEffect Detached
    (ToastPush "Espresso Finished" "System is now allowed to sleep" IconOff).

(** The preset that a duration resolves to: the first one in [modes] with
    that duration. *)
Definition first_preset (d : Time.Duration) : option EspressoMode :=
  find (fun p => Duration p =? d) modes.

Definition is_Tick (ev : Event) : Prop :=
  match ev with Tick _ => True | _ => False end.


(** ** The formatting rules of the specification *)

(** Friendly duration: "Infinity" for the infinite sentinel (a negative
    duration), "<N>h" for an exact positive multiple of one hour, whole
    minutes rounded down otherwise. *)
Definition friendly_rule (d : Z) : string :=
  if d <? 0 then "Infinity"%string
  else if (0 <? d) && (d mod Time.Hour =? 0) then
    Fmt.cat [Fmt.itoa (d / Time.Hour); "h"]%string
  else
    Fmt.cat [Fmt.itoa (d / Time.Minute); "m"]%string.

(** The whole second nearest to a span of nanoseconds, a half going away
    from zero. *)
Definition nearest_second (d : Z) : Z :=
  if 0 <=? d then (d + 500000000) / 1000000000
  else - ((- d + 500000000) / 1000000000).

(** Countdown: hours, minutes and seconds of the span rounded to the
    nearest second and clamped at zero, all three fields present. *)
Definition countdown_rule (d : Z) : string :=
  let total := Z.max 0 (nearest_second d) in
  Fmt.cat [Fmt.itoa (total / 3600); "h ";
           Fmt.itoa ((total / 60) mod 60); "m ";
           Fmt.itoa (total mod 60); "s"]%string.

(** * Files: configuration and bundled resources *)

(** ** The part of packages [os], [bytes] and [strings] that the program calls *)

Module Os.

(** What a path holds: nothing, a file that cannot be read, or a file with
    its content. *)
Inductive file : Type :=
| Missing
| Unreadable
| Data (content : list Byte.byte).

Inductive error : Type := ErrNotExist | ErrOther.

(** Directories are not modelled: a path under a directory that cannot be
    created is a path that is not [writable]. *)
Record Disk : Type := mkDisk {
  files : string -> file;
  writable : string -> bool
}.

(** [os.ReadFile]: the content and no error, or no content and the error. *)
Definition ReadFile (disk : Disk) (name : string)
  : list Byte.byte * option error :=
  match files disk name with
  | Data content => (content, None)
  | Missing => ([], Some ErrNotExist)
  | Unreadable => ([], Some ErrOther)
  end.

Definition IsNotExist (err : option error) : bool :=
  match err with
  | Some ErrNotExist => true
  | _ => false
  end.

(** The test [err != nil]. *)
Definition failed (err : option error) : bool :=
  match err with
  | Some _ => true
  | None => false
  end.

(** [os.WriteFile]: the file holds [data] afterwards, or the disk is as it
    was and an error comes back. *)
Definition WriteFile (disk : Disk) (name : string) (data : list Byte.byte)
  : Disk * option error :=
  if writable disk name then
    (mkDisk (fun other => if String.eqb other name then Data data
                          else files disk other)
            (writable disk),
     None)
  else (disk, Some ErrOther).

End Os.

Module Bytes.

(** [bytes.Equal]; a nil slice and an empty one are equal. *)
Fixpoint Equal (a b : list Byte.byte) : bool :=
  match a, b with
  | [], [] => true
  | x :: a', y :: b' => Byte.eqb x y && Equal a' b'
  | _, _ => false
  end.

End Bytes.

Module Strings.

(** [strings.TrimPrefix]. *)
Definition TrimPrefix (s prefix : string) : string :=
  if String.prefix prefix s then
    String.substring (String.length prefix)
                     (String.length s - String.length prefix) s
  else s.

End Strings.

(** The disk, and the writes attempted on it so far, oldest first. *)
Record Files : Type := mkFiles {
  disk : Os.Disk;
  written : list (string * list Byte.byte)
}.

(** A call [_ = os.WriteFile(name, data, 0644)], its error dropped. *)
Definition writeFile (name : string) (data : list Byte.byte) (w : Files) : Files :=
  mkFiles (fst (Os.WriteFile (disk w) name data)) (written w ++ [(name, data)]).

(** ** Configuration *)

Record Config : Type := mkConfig { Language : string }.

Definition defaultLanguage : string := "en-US".

(** What [settingsPath] asks of the environment. *)
Record Env : Type := mkEnv {
  APPDATA : string;
  UserConfigDir : option string;
  Getwd : option string;
  TempDir : string
}.

(** An entry that [fs.WalkDir] hands to its callback, with the content of
    the embedded file it names. *)
Record WalkItem : Type := mkWalkItem {
  itemPath : string;
  itemErr : bool;
  itemIsDir : bool;
  itemData : list Byte.byte
}.

Section FileSystem.

(** [filepath.Join] of two elements and [filepath.Dir]. *)
Variable Join : string -> string -> string.
Variable Dir : string -> string.
Variable env : Env.

(** [json.MarshalIndent(cfg, "", "  ")] and [json.Unmarshal(data, &cfg)] on
    a zero [Config]; [None] is an error. *)
Variable MarshalIndent : Config -> option (list Byte.byte).
Variable Unmarshal : list Byte.byte -> option Config.

(** The embedded files. *)
Variable licenseData iconData icoffData : list Byte.byte.
Variable thirdPartyLicenses : list WalkItem.

(** [settingsPath]; creating the directory and the warning printed when
    that fails have no counterpart here, see [Os.Disk]. *)
Definition settingsPath : string :=
  let appdata := APPDATA env in
  let appdata :=
    if String.eqb appdata "" then
      match UserConfigDir env with
      | Some dir => dir
      | None =>
          match Getwd env with
          | Some cwd => cwd
          | None => TempDir env
          end
      end
    else appdata in
  let dir := Join appdata "Espresso" in
  Join dir "settings.json".

Definition licenseFilePath : string :=
  let dir := Dir settingsPath in
  Join dir "LICENSE.txt".

Definition iconPath : string :=
  let dir := Dir settingsPath in
  Join dir "espresso.ico".

Definition icoffPath : string :=
  let dir := Dir settingsPath in
  Join dir "espressoff.ico".

Definition saveConfig (cfg : Config) (w : Files) : option Os.error * Files :=
  match MarshalIndent cfg with
  | None => (Some Os.ErrOther, w)
  | Some data =>
      let '(disk', err) := Os.WriteFile (disk w) settingsPath data in
      (err, mkFiles disk' (written w ++ [(settingsPath, data)]))
  end.

Definition loadConfig (w : Files) : Config * Files :=
  let defaultCfg := mkConfig defaultLanguage in
  let p := settingsPath in
  let '(data, err) := Os.ReadFile (disk w) p in
  match err with
  | Some _ => (defaultCfg, snd (saveConfig defaultCfg w))
  | None =>
      match Unmarshal data with
      | None => (defaultCfg, snd (saveConfig defaultCfg w))
      | Some cfg =>
          let needsSave := false in
          let '(cfg, needsSave) :=
            if String.eqb (Language cfg) "" then (mkConfig defaultLanguage, true)
            else (cfg, needsSave) in
          if needsSave then (cfg, snd (saveConfig cfg w)) else (cfg, w)
      end
  end.

(** ** Bundled resources *)

(** The callback of [fs.WalkDir] over the embedded third-party licences. *)
Definition copyThirdParty (thirdPartyDir : string) (w : Files) (it : WalkItem)
  : Files :=
  if itemErr it || itemIsDir it then w
  else
    let relPath := Strings.TrimPrefix (itemPath it) "THIRD_PARTY_LICENSES/" in
    let destPath := Join thirdPartyDir relPath in
    let embeddedContent := itemData it in
    let '(diskContent, diskErr) := Os.ReadFile (disk w) destPath in
    if Os.IsNotExist diskErr || negb (Bytes.Equal diskContent embeddedContent)
    then writeFile destPath embeddedContent w
    else w.

(** [ensureResourceFiles]; the call of [os.MkdirAll] for the third-party
    directory has no counterpart here, see [Os.Disk]. *)
Definition ensureResourceFiles (w : Files) : Files :=
  (* 1. the licence file *)
  let p := licenseFilePath in
  let '(diskData, err) := Os.ReadFile (disk w) p in
  let writeRequired :=
    Os.IsNotExist err || Os.failed err
    || negb (Bytes.Equal diskData licenseData) in
  let w := if writeRequired then writeFile p licenseData w else w in
  (* 2. the two icon files *)
  let p := iconPath in
  let '(diskData, err) := Os.ReadFile (disk w) p in
  let writeRequired :=
    Os.IsNotExist err || Os.failed err
    || negb (Bytes.Equal diskData iconData) in
  let w := if writeRequired then writeFile p iconData w else w in
  let p := icoffPath in
  let '(diskData, err) := Os.ReadFile (disk w) p in
  let writeRequired :=
    Os.IsNotExist err || Os.failed err
    || negb (Bytes.Equal diskData icoffData) in
  let w := if writeRequired then writeFile p icoffData w else w in
  (* 3. the third-party licences *)
  let appDataDir := Dir settingsPath in
  let thirdPartyDir := Join appDataDir "THIRD_PARTY_LICENSES" in
  fold_left (copyThirdParty thirdPartyDir) thirdPartyLicenses w.

(** What [ensureResourceFiles] is for: each of these paths is to hold the
    content beside it.  The flag tells the last group apart, whose files
    are rewritten on a missing file or a different content only, not on
    every read error. *)
Definition resourceTargets : list (bool * string * list Byte.byte) :=
  [ (true, licenseFilePath, licenseData);
    (true, iconPath, iconData);
    (true, icoffPath, icoffData) ] ++
  map (fun it =>
         (false,
          Join (Join (Dir settingsPath) "THIRD_PARTY_LICENSES")
               (Strings.TrimPrefix (itemPath it) "THIRD_PARTY_LICENSES/"),
          itemData it))
      (filter (fun it => negb (itemErr it || itemIsDir it)) thirdPartyLicenses).

End FileSystem.

(** One target brought up to date: the file is written unless it already
    holds the content (or, without [strict], cannot be read and the
    content is empty). *)
Definition ensureTarget (w : Files) (target : bool * string * list Byte.byte)
  : Files :=
  let '(strict, name, data) := target in
  match Os.files (disk w) name with
  | Os.Data content => if Bytes.Equal content data then w else writeFile name data w
  | Os.Missing => writeFile name data w
  | Os.Unreadable =>
      if strict || negb (Bytes.Equal [] data) then writeFile name data w else w
  end.

Definition targetPath (target : bool * string * list Byte.byte) : string :=
  snd (fst target).
(** * Properties of the session state machine *)

(** ** What each closure and each event does *)

Lemma Until_nonpos (t now : Time.Instant) :
  (Time.Until t now <=? 0) = (t <=? now).
Proof.
  unfold Time.Until, Int64.saturate, Int64.min_int, Int64.max_int.
  destruct (Z.leb_spec t now); [apply Z.leb_le | apply Z.leb_gt]; lia.
Qed.

Section Runs.

Variable th : Thread.
Variable v : Vars.

Lemma resetState_run :
  resetState th v =
  (tt, mkVars false false (sessionEndTime v) "Decaf",
   [ allowSleep_request;
     mkEffect th (SystraySetIcon IconOff);
     mkEffect th (ItemSetTitle mMode "Mode: Decaf");
     mkEffect th (SystraySetTooltip "Espresso: Decaf (Sleep allowed)");
     mkEffect th (ItemHide mTimeLeft) ]).
Proof. reflexivity. Qed.

Lemma startSession_run (d : Time.Duration) (now : Time.Instant) :
  startSession d now th v =
  (tt,
   mkVars true (d <? 0)
          (if d <? 0 then sessionEndTime v else Time.Add now d)
          (findName modes d "Custom"),
   preventSleep_request :: mkEffect th (SystraySetIcon IconOn) ::
   (if d <? 0 then
      [ mkEffect th (ItemSetTitle mMode
          (Fmt.cat ["Mode: "; findName modes d "Custom"; " (Infinite)"]%string));
        mkEffect th (ItemHide mTimeLeft);
        mkEffect th (SystraySetTooltip "Espresso: Caffeine High (No Sleep)") ]
    else
      [ mkEffect th (ItemSetTitle mMode
          (Fmt.cat ["Mode: "; findName modes d "Custom"; " (";
                    formatFriendlyDuration d; ")"]%string));
        mkEffect th (ItemShow mTimeLeft) ])).
Proof.
  unfold startSession, bind.
  destruct (d <? 0); reflexivity.
Qed.

Lemma handle_stop :
  handle StopClicked th v =
  (true, mkVars false false (sessionEndTime v) "Decaf",
   trace_of (resetState th v) ++
   [ mkEffect th
       (ToastPush "Espresso Stopped" "System is now allowed to sleep" IconOff) ]).
Proof. reflexivity. Qed.

Lemma handle_quit :
  handle QuitClicked th v = (false, v, [mkEffect th SystrayQuit]).
Proof. reflexivity. Qed.

Lemma handle_info :
  handle InfoClicked th v = (true, v, [mkEffect Detached ShowAbout]).
Proof. reflexivity. Qed.

Lemma handle_control (m : EspressoMode) (now : Time.Instant) :
  handle (Control m now) th v =
  (true, vars_of (startSession (Duration m) now th v),
   trace_of (startSession (Duration m) now th v) ++
   [ mkEffect th
       (ToastPush (Fmt.cat [Name m; " Mode Started"]%string)
          (if Duration m <? 0 then "Preventing sleep indefinitely"%string
           else Fmt.cat [Desc m; newline; "Preventing sleep for ";
                         formatFriendlyDuration (Duration m)]%string)
          IconOn) ]).
Proof.
  cbn [handle]. unfold bind at 1. rewrite startSession_run.
  unfold vars_of, trace_of, bind, showToast, do_, ret. cbn [fst snd].
  rewrite app_nil_r. reflexivity.
Qed.

Lemma handle_tick_idle (now : Time.Instant) :
  isActive v = false -> handle (Tick now) th v = (true, v, []).
Proof.
  intros Hidle. cbn [handle]. unfold bind, get. rewrite Hidle. reflexivity.
Qed.

Lemma handle_tick_infinite (now : Time.Instant) :
  isInfinite v = true -> handle (Tick now) th v = (true, v, []).
Proof.
  intros Hinf. cbn [handle]. unfold bind, get. rewrite Hinf.
  destruct (isActive v); reflexivity.
Qed.

Lemma handle_tick_expired (now : Time.Instant) :
  isActive v = true -> isInfinite v = false -> sessionEndTime v <= now ->
  handle (Tick now) th v =
  (true, mkVars false false (sessionEndTime v) "Decaf",
   trace_of (resetState th v) ++ [finished_toast]).
Proof.
  intros Hact Hfin Hend. cbn [handle]. unfold bind at 1, get.
  rewrite Hact, Hfin, Until_nonpos. cbn [negb].
  apply Z.leb_le in Hend. rewrite Hend. reflexivity.
Qed.

Lemma handle_tick_running (now : Time.Instant) :
  isActive v = true -> isInfinite v = false -> now < sessionEndTime v ->
  handle (Tick now) th v =
  (true, v,
   let timeStr := formatDuration (Time.Until (sessionEndTime v) now) in
   [ mkEffect th (ItemSetTitle mTimeLeft (Fmt.cat ["Time left: "; timeStr]%string));
     mkEffect th (SystraySetTooltip
       (Fmt.cat [currentModeName v; " mode: "; timeStr; " remaining"]%string)) ]).
Proof.
  intros Hact Hfin Hend. cbn [handle]. unfold bind at 1, get.
  rewrite Hact, Hfin, Until_nonpos. cbn [negb].
  apply Z.leb_gt in Hend. rewrite Hend. reflexivity.
Qed.

End Runs.

(** ** Sequencing *)

Lemma bind_run {A B} (c : M A) (k : A -> M B) (th : Thread) (v : Vars) :
  bind c k th v =
  (value_of (k (value_of (c th v)) th (vars_of (c th v))),
   vars_of (k (value_of (c th v)) th (vars_of (c th v))),
   trace_of (c th v) ++ trace_of (k (value_of (c th v)) th (vars_of (c th v)))).
Proof.
  unfold bind, value_of, vars_of, trace_of.
  destruct (c th v) as [[a v1] t1]. cbn [fst snd].
  destruct (k a th v1) as [[b v2] t2]. reflexivity.
Qed.

Lemma loop_continue (ev : Event) (rest : list Event) (th : Thread) (v v1 : Vars)
      (t1 : list Effect) :
  handle ev th v = (true, v1, t1) ->
  loop (ev :: rest) th v =
  (value_of (loop rest th v1), vars_of (loop rest th v1),
   t1 ++ trace_of (loop rest th v1)).
Proof.
  intros Hev. cbn [loop]. rewrite bind_run, Hev. reflexivity.
Qed.

Lemma loop_return (ev : Event) (rest : list Event) (th : Thread) (v v1 : Vars)
      (t1 : list Effect) :
  handle ev th v = (false, v1, t1) ->
  loop (ev :: rest) th v = (true, v1, t1).
Proof.
  intros Hev. cbn [loop]. rewrite bind_run, Hev.
  unfold value_of, vars_of, trace_of, ret. cbn [fst snd].
  now rewrite app_nil_r.
Qed.

(** ** Traces *)

Lemma power_calls_app (t1 t2 : list Effect) :
  power_calls (t1 ++ t2) = power_calls t1 ++ power_calls t2.
Proof. apply filter_app. Qed.

Lemma toasts_app (title : string) (t1 t2 : list Effect) :
  toasts title (t1 ++ t2) = toasts title t1 ++ toasts title t2.
Proof. apply filter_app. Qed.

Lemma power_calls_resetState (th : Thread) (v : Vars) :
  power_calls (trace_of (resetState th v)) = [allowSleep_request].
Proof. reflexivity. Qed.

Lemma power_calls_startSession (d : Time.Duration) (now : Time.Instant)
      (th : Thread) (v : Vars) :
  power_calls (trace_of (startSession d now th v)) = [preventSleep_request].
Proof.
  rewrite startSession_run. unfold trace_of. cbn [snd].
  destruct (d <? 0); reflexivity.
Qed.

(** ** The session invariant *)

Lemma findName_nonempty (d : Time.Duration) :
  findName modes d "Custom" <> EmptyString.
Proof.
  unfold modes. cbn [findName Duration Name].
  repeat match goal with
         | |- context [if ?c then _ else _] => destruct c
         end; discriminate.
Qed.

Lemma inv_session_ok (v : Vars) : inv v -> session_ok v.
Proof.
  intros [Hidle Hname]. unfold session_ok. split; [|split]; trivial.
  destruct (isActive v) eqn:Hact, (isInfinite v) eqn:Hinf.
  - exists ActiveInfinite. split; [cbn; auto|].
    intros [] [? ?]; congruence.
  - exists ActiveTimed. split; [cbn; auto|].
    intros [] [? ?]; congruence.
  - specialize (Hidle eq_refl). discriminate.
  - exists Decaf. split; [cbn; auto|].
    intros [] [? ?]; congruence.
Qed.

Lemma inv_zero : inv zeroVars.
Proof. split; cbn; congruence. Qed.

Lemma inv_reset (t : Time.Instant) : inv (mkVars false false t "Decaf").
Proof. split; cbn; congruence. Qed.

Lemma handle_inv (ev : Event) (th : Thread) (v : Vars) :
  inv v -> inv (vars_of (handle ev th v)).
Proof.
  intros Hv. destruct ev as [ | | | m now | now].
  - now rewrite handle_info.
  - now rewrite handle_quit.
  - rewrite handle_stop. apply inv_reset.
  - rewrite handle_control, startSession_run. split; cbn; [congruence|].
    intros _. apply findName_nonempty.
  - destruct (isActive v) eqn:Hact; [|now rewrite handle_tick_idle].
    destruct (isInfinite v) eqn:Hinf; [now rewrite handle_tick_infinite|].
    destruct (Z.le_gt_cases (sessionEndTime v) now).
    + rewrite handle_tick_expired by assumption. apply inv_reset.
    + now rewrite handle_tick_running by assumption.
Qed.

Lemma sessions_inv (evs : list Event) :
  forall v, inv v -> Forall inv (sessions evs v).
Proof.
  induction evs as [|ev rest IH]; intros v Hv; cbn [sessions].
  - constructor.
  - constructor; [now apply handle_inv|].
    destruct (value_of (handle ev LoopGoroutine v)); [|constructor].
    apply IH. now apply handle_inv.
Qed.

(** C1: after every event of every finite sequence of start, stop and tick
    events (info and quit clicks included) run from the initial variables,
    the session is in exactly one of Decaf, Active-Timed and
    Active-Infinite; an inactive session is never infinite and an active
    one has a non-empty mode name. *)
Theorem session_in_one_state (evs : list Event) :
  session_ok zeroVars /\ Forall session_ok (sessions evs zeroVars).
Proof.
  split.
  - apply inv_session_ok, inv_zero.
  - eapply Forall_impl; [apply inv_session_ok|].
    apply sessions_inv, inv_zero.
Qed.

Lemma last_cons {A} (l : list A) :
  forall x d, last (x :: l) d = last l x.
Proof.
  induction l as [|y l IH]; intros x d; [reflexivity|].
  change (last (x :: y :: l) d) with (last (y :: l) d).
  rewrite (IH y d). symmetry. apply IH.
Qed.

(** [sessions] lists the variables that [loop] goes through. *)
Lemma loop_sessions (evs : list Event) :
  forall v, vars_of (loop evs LoopGoroutine v) = last (sessions evs v) v.
Proof.
  induction evs as [|ev rest IH]; intros v; [reflexivity|].
  cbn [sessions].
  destruct (handle ev LoopGoroutine v) as [[c v1] t1] eqn:Hev.
  destruct c.
  - rewrite (loop_continue _ _ _ _ _ _ Hev).
    change (vars_of (loop rest LoopGoroutine v1) = last (v1 :: sessions rest v1) v).
    rewrite IH. symmetry. apply last_cons.
  - now rewrite (loop_return _ _ _ _ _ _ Hev).
Qed.

(** ** Start, stop and expiry *)

(** C2: from any prior variables, handling a start with duration [d >= 0]
    leaves the session Active-Timed with end time [now + d], handling one
    with [d < 0] leaves it Active-Infinite, and in both cases the trace of
    the step holds exactly one power call, [preventSleep] run through
    [execOnMainThread]. *)
Theorem start_transitions (th : Thread) (v : Vars) (m : EspressoMode)
        (now : Time.Instant) :
  let d := Duration m in
  let r := handle (Control m now) th v in
  (0 <= d ->
   in_state (vars_of r) ActiveTimed /\ sessionEndTime (vars_of r) = now + d) /\
  (d < 0 -> in_state (vars_of r) ActiveInfinite) /\
  power_calls (trace_of r) = [preventSleep_request].
Proof.
  intros d r.
  assert (Hv : vars_of r = vars_of (startSession d now th v)).
  { subst r. now rewrite handle_control. }
  assert (Ht : power_calls (trace_of r) = [preventSleep_request]).
  { subst r. rewrite handle_control. unfold trace_of at 1. cbn [snd].
    now rewrite power_calls_app, power_calls_startSession. }
  rewrite Hv, startSession_run. unfold vars_of. cbn [fst snd].
  split; [|split]; [intros Hd|intros Hd|exact Ht].
  - apply Z.ltb_ge in Hd. rewrite Hd. repeat split.
  - apply Z.ltb_lt in Hd. rewrite Hd. repeat split.
Qed.

Lemma start_transitions_witness :
  let drop := mkMode "Drop" (10 * Time.Minute) "Just a drop, almost no caffeine." in
  let pure := mkMode "Pure Caffeine" (-1) "Maximum alertness, use with caution." in
  let r := handle (Control drop 1000) LoopGoroutine zeroVars in
  let r' := handle (Control pure 1000) LoopGoroutine zeroVars in
  (in_state (vars_of r) ActiveTimed /\
   sessionEndTime (vars_of r) = 1000 + 10 * Time.Minute) /\
  in_state (vars_of r') ActiveInfinite /\
  power_calls (trace_of r) = [preventSleep_request].
Proof.
  intros drop pure r r'.
  destruct (start_transitions LoopGoroutine zeroVars drop 1000) as (Htimed & _ & Hcalls).
  destruct (start_transitions LoopGoroutine zeroVars pure 1000) as (_ & Hinf & _).
  split; [|split].
  - apply Htimed. vm_compute. discriminate.
  - apply Hinf. reflexivity.
  - exact Hcalls.
Defined.

(** C4: from any prior variables, Decaf included, handling a stop leaves
    the session in Decaf and the trace of the step holds exactly one power
    call, [allowSleep] run through [execOnMainThread]. *)
Theorem stop_transitions (th : Thread) (v : Vars) :
  let r := handle StopClicked th v in
  in_state (vars_of r) Decaf /\
  power_calls (trace_of r) = [allowSleep_request].
Proof.
  cbn zeta. rewrite handle_stop. split; [split; reflexivity|].
  unfold trace_of at 1. cbn [snd].
  now rewrite power_calls_app, power_calls_resetState.
Qed.

Lemma loop_ticks_idle (ticks : list Event) (th : Thread) :
  Forall is_Tick ticks ->
  forall v, isActive v = false -> loop ticks th v = (false, v, []).
Proof.
  induction 1 as [|ev rest Hev _ IH]; intros v Hidle; [reflexivity|].
  destruct ev; try contradiction.
  rewrite (loop_continue _ _ _ _ _ _ (handle_tick_idle th v now Hidle)).
  now rewrite IH.
Qed.

Lemma loop_ticks_running (early : list Time.Instant) (th : Thread) (v : Vars) :
  isActive v = true -> isInfinite v = false ->
  Forall (fun t => t < sessionEndTime v) early ->
  let r := loop (map Tick early) th v in
  vars_of r = v /\ power_calls (trace_of r) = [] /\
  toasts "Espresso Finished" (trace_of r) = [].
Proof.
  intros Hact Hfin. induction 1 as [|t rest Ht _ IH]; cbn zeta.
  - repeat split.
  - cbn [map].
    rewrite (loop_continue _ _ _ _ _ _ (handle_tick_running th v t Hact Hfin Ht)).
    destruct IH as (IHv & IHp & IHt).
    set (rest_run := loop (map Tick rest) th v) in *.
    unfold vars_of, trace_of in *. cbn [fst snd] in *.
    rewrite power_calls_app, toasts_app, IHp, IHt.
    repeat split; assumption.
Qed.

(** C3: take an Active-Timed session.  Ticks that arrive before the end
    time leave it as it is, with no power call and no finished
    notification.  The first tick at or after the end time puts it in
    Decaf, with exactly one power call ([allowSleep] through
    [execOnMainThread]) and exactly one "Espresso Finished" notification.
    Every later run of ticks changes nothing and calls nothing. *)
Theorem expiry_acts_once (th : Thread) (v : Vars)
        (early : list Time.Instant) (now : Time.Instant) (later : list Event) :
  in_state v ActiveTimed ->
  Forall (fun t => t < sessionEndTime v) early ->
  sessionEndTime v <= now ->
  Forall is_Tick later ->
  let r0 := loop (map Tick early) th v in
  let r1 := handle (Tick now) th (vars_of r0) in
  let r2 := loop later th (vars_of r1) in
  (vars_of r0 = v /\ power_calls (trace_of r0) = [] /\
   toasts "Espresso Finished" (trace_of r0) = []) /\
  (in_state (vars_of r1) Decaf /\
   power_calls (trace_of r1) = [allowSleep_request] /\
   toasts "Espresso Finished" (trace_of r1) = [finished_toast]) /\
  (vars_of r2 = vars_of r1 /\ trace_of r2 = []).
Proof.
  intros [Hact Hfin] Hearly Hend Hlater r0 r1 r2.
  destruct (loop_ticks_running early th v Hact Hfin Hearly) as (H0v & H0p & H0t).
  fold r0 in H0v, H0p, H0t.
  assert (H1 : r1 = (true, mkVars false false (sessionEndTime v) "Decaf",
                     trace_of (resetState th v) ++ [finished_toast])).
  { subst r1. rewrite H0v. now apply handle_tick_expired. }
  assert (H2 : r2 = (false, vars_of r1, [])).
  { subst r2. apply loop_ticks_idle; [assumption|]. now rewrite H1. }
  split; [auto|]. split.
  - rewrite H1. repeat split.
  - now rewrite H2.
Qed.

Lemma expiry_acts_once_witness :
  let v := mkVars true false 600 "Drop" in
  let r0 := loop (map Tick [100; 200]) LoopGoroutine v in
  let r1 := handle (Tick 601) LoopGoroutine (vars_of r0) in
  let r2 := loop [Tick 602; Tick 603] LoopGoroutine (vars_of r1) in
  (vars_of r0 = v /\ power_calls (trace_of r0) = [] /\
   toasts "Espresso Finished" (trace_of r0) = []) /\
  (in_state (vars_of r1) Decaf /\
   power_calls (trace_of r1) = [allowSleep_request] /\
   toasts "Espresso Finished" (trace_of r1) = [finished_toast]) /\
  (vars_of r2 = vars_of r1 /\ trace_of r2 = []).
Proof.
  intros v.
  apply (expiry_acts_once LoopGoroutine v [100; 200] 601 [Tick 602; Tick 603]).
  - split; reflexivity.
  - repeat constructor.
  - cbn. lia.
  - repeat constructor.
Defined.

(** ** The resolved preset name *)

Lemma findName_find (ms : list EspressoMode) (d : Time.Duration) (dflt : string) :
  findName ms d dflt =
  match find (fun p => Duration p =? d) ms with
  | Some p => Name p
  | None => dflt
  end.
Proof.
  induction ms as [|p ms IH]; cbn [findName find]; [reflexivity|].
  now destruct (Duration p =? d).
Qed.

(** C8: handling a start with duration [d] sets the mode name to the name
    of the first of the nine presets whose duration is [d], and to
    "Custom" when there is none; the resulting state and end time are those
    of any other start with the same duration, whatever its name. *)
Theorem start_resolves_preset_name (th : Thread) (v : Vars) (m : EspressoMode)
        (now : Time.Instant) :
  let d := Duration m in
  let r := handle (Control m now) th v in
  List.length modes = 9%nat /\
  currentModeName (vars_of r) =
    match first_preset d with
    | Some p => Name p
    | None => "Custom"%string
    end /\
  forall m' : EspressoMode,
    Duration m' = d ->
    let r' := handle (Control m' now) th v in
    (forall st, in_state (vars_of r') st <-> in_state (vars_of r) st) /\
    sessionEndTime (vars_of r') = sessionEndTime (vars_of r).
Proof.
  intros d r. split; [reflexivity|]. split.
  - subst r. rewrite handle_control, startSession_run.
    unfold vars_of. cbn [fst snd currentModeName].
    apply findName_find.
  - intros m' Hd r'. subst r r'. rewrite !handle_control.
    unfold vars_of at 1 3 5 7. cbn [fst snd]. rewrite Hd.
    split; [intros st|]; reflexivity.
Qed.

Lemma start_resolves_preset_name_witness :
  let latte := mkMode "Latte" (30 * Time.Minute) "Gentle boost to get you started." in
  let other := mkMode "Half an hour" (30 * Time.Minute) "" in
  let r := handle (Control latte 5) LoopGoroutine zeroVars in
  let r' := handle (Control other 5) LoopGoroutine zeroVars in
  (forall st, in_state (vars_of r') st <-> in_state (vars_of r) st) /\
  sessionEndTime (vars_of r') = sessionEndTime (vars_of r).
Proof.
  intros latte other.
  apply (start_resolves_preset_name LoopGoroutine zeroVars latte 5).
  reflexivity.
Defined.

(** ** Quit and start-up *)

(** C9: handling a quit click leaves the session variables as they are and
    makes no power call: the step only calls [systray.Quit], the loop
    returns, and the events that follow are not handled.  [onExit] makes no
    power call either. *)
Theorem quit_leaves_session (th : Thread) (v : Vars) (rest : list Event) :
  let r := loop (QuitClicked :: rest) th v in
  value_of r = true /\
  vars_of r = v /\
  trace_of r = [mkEffect th SystrayQuit] /\
  power_calls (trace_of r) = [] /\
  sessions (QuitClicked :: rest) v = [v] /\
  power_calls (trace_of (onExit MainGoroutine v)) = [].
Proof.
  cbn zeta. rewrite (loop_return _ _ _ _ _ _ (handle_quit th v)).
  repeat split.
Qed.

Lemma createMenu_run (th : Thread) (v : Vars) :
  value_of (createMenu th v) = tt /\
  vars_of (createMenu th v) = v /\
  power_calls (trace_of (createMenu th v)) = [].
Proof. repeat split. Qed.

Lemma onReady_run (evs : list Event) (th : Thread) (v : Vars) :
  let r := loop evs LoopGoroutine zeroVars in
  onReady evs th v =
  (value_of r, vars_of r, trace_of (createMenu th v) ++ trace_of r).
Proof.
  intros r. unfold onReady, bind, modify, on_thread. fold r.
  destruct (createMenu th v) as [[u v1] t1].
  destruct r as [[b v2] t2]. reflexivity.
Qed.

Lemma run_main_single (evs : list Event) :
  let menu := trace_of (createMenu MainGoroutine zeroVars) in
  let r := loop evs LoopGoroutine zeroVars in
  run_main true evs =
  allowSleep_request :: menu ++ trace_of r ++
  (if value_of r then trace_of (onExit MainGoroutine (vars_of r)) else []).
Proof.
  intros menu r. unfold run_main, main, systray_Run. cbn [negb].
  unfold bind at 1. cbn [execOnMainThread on_thread allowSleep do_].
  unfold bind. rewrite onReady_run. fold r menu.
  unfold value_of, vars_of, trace_of. cbn [fst snd].
  destruct r as [[[] v2] t2]; cbn [fst snd app].
  - destruct (onExit MainGoroutine v2) as [[u v3] t3]. cbn [snd].
    now rewrite <- app_assoc.
  - unfold ret. cbn [snd]. now rewrite <- app_assoc.
Qed.

(** C10 (amended): when [enforceSingleInstance] succeeds, the trace of the
    program starts with one [allowSleep] run through [execOnMainThread],
    followed by the menu set-up, which makes no power call, and only then
    by what the loop does with the events; when another instance holds the
    mutex, [main] returns at once and the trace is empty. *)
Theorem startup_allows_sleep (single : bool) (evs : list Event) :
  (single = true ->
   let menu := trace_of (createMenu MainGoroutine zeroVars) in
   let r := loop evs LoopGoroutine zeroVars in
   run_main single evs =
     allowSleep_request :: menu ++ trace_of r ++
     (if value_of r then trace_of (onExit MainGoroutine (vars_of r)) else []) /\
   power_calls (allowSleep_request :: menu) = [allowSleep_request]) /\
  (single = false -> run_main single evs = []).
Proof.
  split; intros ->.
  - split; [apply run_main_single|reflexivity].
  - reflexivity.
Qed.

Lemma startup_allows_sleep_witness :
  power_calls (run_main true []) = [allowSleep_request] /\
  run_main false [Tick 0] = [].
Proof.
  split.
  - destruct (startup_allows_sleep true []) as [Hsingle _].
    destruct (Hsingle eq_refl) as [Hrun Hcalls].
    rewrite Hrun. reflexivity.
  - apply (startup_allows_sleep false [Tick 0]). reflexivity.
Defined.

(** C10 as stated fails: a second instance of the program issues no
    [allowSleep] request at all. *)
Lemma startup_second_instance :
  ~ (forall single : bool,
       power_calls (run_main single []) = [allowSleep_request]).
Proof.
  intros Hclaim. specialize (Hclaim false). discriminate Hclaim.
Qed.
(** * Binary64 facts *)

(** The development below follows [binary_round_aux] step by step: the
    first shift brings the mantissa to 53 bits, the rounding adds at most
    one unit, the second shift repairs a carry. *)

Module FloatFacts.

Local Abbreviation fexp := (SpecFloat.fexp Float64.prec Float64.emax).
Local Abbreviation round_aux := (binary_round_aux Float64.prec Float64.emax).

Lemma fexp_normal (e : Z) : -1021 <= e -> fexp e = e - 53.
Proof.
  intros He. unfold SpecFloat.fexp, emin, Float64.prec, Float64.emax. lia.
Qed.

(** *** Digits *)

Lemma digits2_pos_bounds (p : positive) :
  2 ^ (Zpos (digits2_pos p) - 1) <= Zpos p < 2 ^ Zpos (digits2_pos p).
Proof.
  induction p as [p IH|p IH|]; cbn [digits2_pos].
  - rewrite Pos2Z.inj_succ, Z.pow_succ_r by lia.
    replace (Z.succ (Zpos (digits2_pos p)) - 1) with (Z.succ (Zpos (digits2_pos p) - 1)) by lia.
    rewrite Z.pow_succ_r by lia. lia.
  - rewrite Pos2Z.inj_succ, Z.pow_succ_r by lia.
    replace (Z.succ (Zpos (digits2_pos p)) - 1) with (Z.succ (Zpos (digits2_pos p) - 1)) by lia.
    rewrite Z.pow_succ_r by lia. lia.
  - cbn. lia.
Qed.

Lemma Zdigits2_bounds (m : Z) :
  0 < m -> 2 ^ (Zdigits2 m - 1) <= m < 2 ^ Zdigits2 m.
Proof.
  destruct m as [|p|p]; try lia. intros _. apply digits2_pos_bounds.
Qed.

Lemma Zdigits2_pos (m : Z) : 0 < m -> 0 < Zdigits2 m.
Proof. destruct m; cbn; lia. Qed.

Lemma Zdigits2_unique (m n : Z) :
  2 ^ (n - 1) <= m < 2 ^ n -> 0 < n -> Zdigits2 m = n.
Proof.
  intros [Hlo Hhi] Hn.
  assert (Hm : 0 < m) by (pose proof (Z.pow_pos_nonneg 2 (n - 1)); lia).
  pose proof (Zdigits2_bounds m Hm) as [Dlo Dhi].
  pose proof (Zdigits2_pos m Hm) as Dpos.
  destruct (Z.lt_trichotomy (Zdigits2 m) n) as [Hlt|[Heq|Hgt]]; [|assumption|].
  - assert (2 ^ Zdigits2 m <= 2 ^ (n - 1)) by (apply Z.pow_le_mono_r; lia). lia.
  - assert (2 ^ n <= 2 ^ (Zdigits2 m - 1)) by (apply Z.pow_le_mono_r; lia). lia.
Qed.

(** *** Shifting a mantissa to the right *)

Lemma iter_pos_iter {A} (f : A -> A) (p : positive) :
  forall x, iter_pos f p x = Pos.iter f x p.
Proof.
  induction p as [p IH|p IH|]; intros x; cbn [iter_pos Pos.iter].
  - rewrite !IH. now rewrite <- !Pos.iter_swap.
  - now rewrite !IH.
  - reflexivity.
Qed.

Lemma shr_1_spec (mrs : shr_record) :
  0 <= shr_m mrs ->
  shr_m (shr_1 mrs) = shr_m mrs / 2 /\ shr_r (shr_1 mrs) = Z.odd (shr_m mrs).
Proof.
  destruct mrs as [m r s]. cbn [shr_m]. intros Hm.
  destruct m as [|[p|p|]|p]; try lia; cbn [shr_1 shr_m shr_r].
  - split; reflexivity.
  - split; [|reflexivity].
    apply Z.div_unique with (r := 1); lia.
  - split; [|reflexivity].
    apply Z.div_unique with (r := 0); lia.
  - split; reflexivity.
Qed.

Lemma shr_iter_spec (p : positive) (mrs : shr_record) :
  0 <= shr_m mrs ->
  shr_m (iter_pos shr_1 p mrs) = shr_m mrs / 2 ^ Zpos p /\
  shr_r (iter_pos shr_1 p mrs) = Z.testbit (shr_m mrs) (Zpos p - 1).
Proof.
  intros Hm. rewrite iter_pos_iter.
  induction p as [|p IH] using Pos.peano_ind.
  - cbn [Pos.iter]. destruct (shr_1_spec mrs Hm) as [-> ->].
    split; [reflexivity|]. now rewrite Z.bit0_odd.
  - rewrite Pos.iter_succ. destruct IH as [IHm IHr].
    assert (H0 : 0 <= shr_m (Pos.iter shr_1 mrs p)).
    { rewrite IHm. apply Z.div_pos; [assumption|]. apply Z.pow_pos_nonneg; lia. }
    destruct (shr_1_spec _ H0) as [-> ->]. rewrite IHm.
    rewrite Pos2Z.inj_succ. split.
    + rewrite Z.pow_succ_r by lia.
      rewrite Z.div_div by (try apply Z.pow_pos_nonneg; lia).
      f_equal. lia.
    + replace (Z.succ (Zpos p) - 1) with (Zpos p) by lia.
      rewrite Z.testbit_odd, Z.shiftr_div_pow2 by lia. reflexivity.
Qed.

(** A set bit below the cut means at least half a unit is dropped. *)
Lemma testbit_half (m k : Z) :
  0 <= m -> 0 < k -> Z.testbit m (k - 1) = true ->
  2 ^ (k - 1) <= m mod 2 ^ k.
Proof.
  intros Hm Hk Hbit.
  rewrite Z.testbit_odd, Z.shiftr_div_pow2 in Hbit by lia.
  assert (Hpow : 2 ^ k = 2 * 2 ^ (k - 1)).
  { replace k with (Z.succ (k - 1)) at 1 by lia. apply Z.pow_succ_r. lia. }
  assert (Hp : 0 < 2 ^ (k - 1)) by (apply Z.pow_pos_nonneg; lia).
  set (h := 2 ^ (k - 1)) in *.
  pose proof (Z.div_mod m h ltac:(lia)) as Hdm.
  pose proof (Z.mod_pos_bound m h Hp) as Hr.
  apply Z.odd_spec in Hbit. destruct Hbit as [c Hc].
  rewrite Hpow.
  assert (Hmod : m mod (2 * h) = h + m mod h).
  { symmetry. apply Z.mod_unique with (q := c); nia. }
  lia.
Qed.

Lemma round_nearest_even_cases (mrs : shr_record) :
  let m1 := round_nearest_even (shr_m mrs) (loc_of_shr_record mrs) in
  m1 = shr_m mrs \/ (m1 = shr_m mrs + 1 /\ shr_r mrs = true).
Proof.
  destruct mrs as [m [|] [|]]; cbn; try destruct (Z.even m); auto.
Qed.

Lemma shr_record_of_loc_m (m : Z) (l : location) :
  shr_m (shr_record_of_loc m l) = m.
Proof. now destruct l as [|[ | | ]]. Qed.

Lemma shr_record_of_loc_exact (m : Z) :
  shr_r (shr_record_of_loc m loc_Exact) = false.
Proof. reflexivity. Qed.

(** *** One rounding *)

Section RoundAux.

Variables (sx : bool) (mx ex : Z) (lx : location).

Let k : Z := Zdigits2 mx - 53.

Hypothesis mx_pos : 0 < mx.
Hypothesis mx_wide : 53 <= Zdigits2 mx.
Hypothesis ex_low : -1074 <= ex.
Hypothesis ex_high : ex + k < 971.

(** When the rounding goes up, the part that was cut is at least half
    a unit, or the location given with an uncut mantissa says so. *)
Let goes_up : Prop :=
  (k = 0 /\ (lx = loc_Inexact Eq \/ lx = loc_Inexact Gt)) \/
  (0 < k /\ 2 ^ (k - 1) <= mx mod 2 ^ k).

Lemma first_shift :
  exists mrs,
    shr_fexp Float64.prec Float64.emax mx ex lx = (mrs, ex + k) /\
    shr_m mrs = mx / 2 ^ k /\
    (shr_r mrs = true -> goes_up).
Proof.
  unfold shr_fexp. rewrite fexp_normal by lia.
  replace (Zdigits2 mx + ex - 53 - ex) with k by (subst k; lia).
  unfold shr. destruct k as [|p|p] eqn:Hk.
  - exists (shr_record_of_loc mx lx). rewrite Z.add_0_r.
    split; [reflexivity|]. split.
    + rewrite shr_record_of_loc_m. cbn. now rewrite Z.div_1_r.
    + intros Hr. left. split; [reflexivity|].
      destruct lx as [|[ | | ]]; cbn in Hr; auto; discriminate.
  - exists (iter_pos shr_1 p (shr_record_of_loc mx lx)).
    split; [reflexivity|].
    destruct (shr_iter_spec p (shr_record_of_loc mx lx)) as [Hm Hr].
    { rewrite shr_record_of_loc_m. lia. }
    rewrite shr_record_of_loc_m in Hm, Hr. split; [exact Hm|].
    intros Hbit. right. split; [lia|].
    apply testbit_half; [lia|lia|]. now rewrite <- Hr.
  - subst k. lia.
Qed.

Lemma first_shift_normal : 2 ^ 52 <= mx / 2 ^ k < 2 ^ 53.
Proof.
  pose proof (Zdigits2_bounds mx mx_pos) as [Hlo Hhi].
  assert (Hk : 0 <= k) by (subst k; lia).
  assert (Hp : 0 < 2 ^ k) by (apply Z.pow_pos_nonneg; lia).
  replace (Zdigits2 mx - 1) with (52 + k) in Hlo by (subst k; lia).
  replace (Zdigits2 mx) with (53 + k) in Hhi by (subst k; lia).
  rewrite Z.pow_add_r in Hlo, Hhi by lia.
  split.
  - apply Z.div_le_lower_bound; lia.
  - apply Z.div_lt_upper_bound; lia.
Qed.

Lemma round_aux_spec :
  exists m1,
    (m1 = mx / 2 ^ k \/ (m1 = mx / 2 ^ k + 1 /\ goes_up)) /\
    round_aux sx mx ex lx =
    if m1 <? 2 ^ 53 then S754_finite sx (Z.to_pos m1) (ex + k)
    else S754_finite sx (Z.to_pos (2 ^ 52)) (ex + k + 1).
Proof.
  destruct first_shift as (mrs & Hshift & Hm & Hr).
  pose proof first_shift_normal as Hnorm.
  assert (Hk : 0 <= k) by (subst k; lia).
  unfold binary_round_aux. rewrite Hshift.
  set (m1 := round_nearest_even (shr_m mrs) (loc_of_shr_record mrs)).
  exists m1. split.
  { destruct (round_nearest_even_cases mrs) as [H1|[H1 Hup]]; fold m1 in H1.
    - left. now rewrite H1, Hm.
    - right. rewrite H1, Hm. auto. }
  assert (Hm1 : 2 ^ 52 <= m1 <= 2 ^ 53).
  { destruct (round_nearest_even_cases mrs) as [H1|[H1 _]]; fold m1 in H1;
      rewrite H1, Hm; lia. }
  unfold shr_fexp.
  destruct (Z.ltb_spec m1 (2 ^ 53)) as [Hlt|Hge].
  - rewrite (Zdigits2_unique m1 53) by (cbn; lia).
    rewrite fexp_normal by lia.
    replace (53 + (ex + k) - 53 - (ex + k)) with 0 by lia.
    cbn [shr shr_record_of_loc shr_m].
    destruct m1 as [|q|q]; try lia.
    replace (ex + k <=? Float64.emax - Float64.prec) with true
      by (symmetry; apply Z.leb_le; unfold Float64.emax, Float64.prec; lia).
    reflexivity.
  - assert (m1 = 2 ^ 53) as -> by lia.
    replace (fexp (Zdigits2 (2 ^ 53) + (ex + k)) - (ex + k)) with 1
      by (change (Zdigits2 (2 ^ 53)) with 54; rewrite fexp_normal; lia).
    cbn [shr iter_pos shr_record_of_loc].
    change (shr_m (shr_1 {| shr_m := 2 ^ 53; shr_r := false; shr_s := false |}))
      with (2 ^ 52).
    change (2 ^ 52) with (Zpos (Z.to_pos (2 ^ 52))) at 1.
    cbv iota beta.
    replace (ex + k + 1 <=? Float64.emax - Float64.prec) with true
      by (symmetry; apply Z.leb_le; unfold Float64.emax, Float64.prec; lia).
    reflexivity.
Qed.

End RoundAux.

(** *** Aligning to the left, and exact conversions *)

Lemma iter_xO (p d : positive) :
  Zpos (Pos.iter xO p d) = Zpos p * 2 ^ Zpos d.
Proof.
  induction d as [|d IH] using Pos.peano_ind.
  - cbn [Pos.iter]. lia.
  - rewrite Pos.iter_succ, Pos2Z.inj_xO, IH, Pos2Z.inj_succ.
    rewrite Z.pow_succ_r by lia. lia.
Qed.

Lemma shl_align_down (mx : positive) (ex ex' : Z) :
  ex' <= ex ->
  exists mz, shl_align mx ex ex' = (mz, ex') /\
             Zpos mz = Zpos mx * 2 ^ (ex - ex').
Proof.
  intros Hle. unfold shl_align.
  destruct (ex' - ex) as [|d|d] eqn:Hd; try lia.
  - exists mx. replace ex' with ex by lia.
    rewrite Z.sub_diag. split; [reflexivity|]. cbn. lia.
  - exists (Pos.iter xO mx d). split; [reflexivity|].
    rewrite iter_xO. f_equal. f_equal. lia.
Qed.

Lemma shl_align_up (mx : positive) (ex ex' : Z) :
  ex <= ex' -> shl_align mx ex ex' = (mx, ex).
Proof.
  intros Hle. unfold shl_align.
  destruct (ex' - ex) as [|d|d] eqn:Hd; try lia; reflexivity.
Qed.

(** A mantissa of at most 53 bits is only moved to the left. *)
Lemma binary_round_exact (s : bool) (p : positive) (e : Z) :
  let dg := Zpos (digits2_pos p) in
  dg <= 53 -> -1021 <= dg + e -> dg + e < 1024 ->
  binary_round Float64.prec Float64.emax s p e =
  S754_finite s (Z.to_pos (Zpos p * 2 ^ (53 - dg))) (dg + e - 53).
Proof.
  intros dg Hdg Hlo Hhi. unfold binary_round.
  rewrite fexp_normal by (fold dg; lia). fold dg.
  destruct (shl_align_down p e (dg + e - 53)) as (mz & -> & Hmz); [lia|].
  replace (e - (dg + e - 53)) with (53 - dg) in Hmz by lia.
  pose proof (digits2_pos_bounds p) as [Plo Phi]. fold dg in Plo, Phi.
  assert (Hpow : 0 < 2 ^ (53 - dg)) by (apply Z.pow_pos_nonneg; lia).
  assert (Hnorm : 2 ^ 52 <= Zpos mz < 2 ^ 53).
  { assert (E52 : 2 ^ 52 = 2 ^ (dg - 1) * 2 ^ (53 - dg))
      by (rewrite <- Z.pow_add_r by lia; f_equal; lia).
    assert (E53 : 2 ^ 53 = 2 ^ dg * 2 ^ (53 - dg))
      by (rewrite <- Z.pow_add_r by lia; f_equal; lia).
    rewrite Hmz, E52, E53. nia. }
  assert (Hdigits : Zdigits2 (Zpos mz) = 53)
    by (apply Zdigits2_unique; [exact Hnorm|lia]).
  destruct (round_aux_spec s (Zpos mz) (dg + e - 53) loc_Exact)
    as (m1 & Hcase & ->); try (rewrite ?Hdigits; lia).
  rewrite Hdigits in *. change (53 - 53) with 0 in *.
  rewrite Z.div_1_r in Hcase.
  destruct Hcase as [->|[_ [[_ [Hl|Hl]]|[Hl _]]]]; try discriminate; try lia.
  replace (Zpos mz <? 2 ^ 53) with true by (symmetry; apply Z.ltb_lt; lia).
  rewrite Z.add_0_r, <- Hmz. reflexivity.
Qed.

Lemma of_int_finite (n : Z) :
  n <> 0 -> Z.abs n < 2 ^ 53 ->
  let dg := Zdigits2 n in
  Float64.of_int n =
  S754_finite (n <? 0) (Z.to_pos (Z.abs n * 2 ^ (53 - dg))) (dg - 53).
Proof.
  intros Hn Habs dg. unfold Float64.of_int, binary_normalize.
  destruct n as [|p|p]; [contradiction| |].
  - cbn [Z.abs] in *. pose proof (digits2_pos_bounds p) as [Plo _].
    assert (Zpos (digits2_pos p) <= 53).
    { destruct (Z.le_gt_cases (Zpos (digits2_pos p)) 53); [assumption|].
      assert (2 ^ 53 <= 2 ^ (Zpos (digits2_pos p) - 1))
        by (apply Z.pow_le_mono_r; lia). lia. }
    rewrite binary_round_exact by lia.
    subst dg. cbn [Zdigits2 Z.ltb Z.compare]. rewrite Z.add_0_r. reflexivity.
  - cbn [Z.abs] in *. pose proof (digits2_pos_bounds p) as [Plo _].
    assert (Zpos (digits2_pos p) <= 53).
    { destruct (Z.le_gt_cases (Zpos (digits2_pos p)) 53); [assumption|].
      assert (2 ^ 53 <= 2 ^ (Zpos (digits2_pos p) - 1))
        by (apply Z.pow_le_mono_r; lia). lia. }
    rewrite binary_round_exact by lia.
    subst dg. cbn [Zdigits2 Z.ltb Z.compare]. rewrite Z.add_0_r. reflexivity.
Qed.

Lemma of_int_zero : Float64.of_int 0 = S754_zero false.
Proof. reflexivity. Qed.

(** *** Truncation *)

Lemma to_int_finite (s : bool) (m : positive) (e : Z) :
  e <= 0 -> Zpos m / 2 ^ (- e) < 2 ^ 63 ->
  Float64.to_int (S754_finite s m e) =
  if s then - (Zpos m / 2 ^ (- e)) else Zpos m / 2 ^ (- e).
Proof.
  intros He Hfit. unfold Float64.to_int, Float64.trunc.
  assert (Hq : 0 <= Zpos m / 2 ^ (- e))
    by (apply Z.div_pos; [lia|apply Z.pow_pos_nonneg; lia]).
  assert (Ha : match e with
               | Zneg p => Z.shiftr (Zpos m) (Zpos p)
               | _ => Z.shiftl (Zpos m) e
               end = Zpos m / 2 ^ (- e)).
  { destruct e as [|p|p]; try lia.
    - cbn. now rewrite Z.div_1_r.
    - rewrite Z.shiftr_div_pow2 by lia. reflexivity. }
  rewrite Ha. unfold Int64.min_int, Int64.max_int.
  destruct s.
  - replace ((- 2 ^ 63 <=? - (Zpos m / 2 ^ (- e))) &&
             (- (Zpos m / 2 ^ (- e)) <=? 2 ^ 63 - 1)) with true; [reflexivity|].
    symmetry. apply andb_true_iff. split; apply Z.leb_le; lia.
  - replace ((- 2 ^ 63 <=? Zpos m / 2 ^ (- e)) &&
             (Zpos m / 2 ^ (- e) <=? 2 ^ 63 - 1)) with true; [reflexivity|].
    symmetry. apply andb_true_iff. split; apply Z.leb_le; lia.
Qed.

(** The conversion of an integer below [2 ^ 53] loses nothing. *)
Lemma to_int_of_int (n : Z) :
  Z.abs n < 2 ^ 53 -> Float64.to_int (Float64.of_int n) = n.
Proof.
  intros Habs. destruct (Z.eq_dec n 0) as [->|Hn]; [reflexivity|].
  rewrite of_int_finite by assumption.
  assert (Hpos : 0 < Z.abs n) by lia.
  assert (Hdg : Zdigits2 n = Zdigits2 (Z.abs n)) by (now destruct n).
  pose proof (Zdigits2_bounds (Z.abs n) Hpos) as [Dlo Dhi].
  pose proof (Zdigits2_pos (Z.abs n) Hpos) as Dpos.
  rewrite <- Hdg in *.
  assert (Hle : Zdigits2 n <= 53).
  { destruct (Z.le_gt_cases (Zdigits2 n) 53); [assumption|].
    assert (2 ^ 53 <= 2 ^ (Zdigits2 n - 1)) by (apply Z.pow_le_mono_r; lia).
    lia. }
  assert (Hpow : 0 < 2 ^ (53 - Zdigits2 n)) by (apply Z.pow_pos_nonneg; lia).
  assert (Hdiv : Zpos (Z.to_pos (Z.abs n * 2 ^ (53 - Zdigits2 n))) /
                 2 ^ (- (Zdigits2 n - 53)) = Z.abs n).
  { rewrite Z2Pos.id by nia.
    replace (- (Zdigits2 n - 53)) with (53 - Zdigits2 n) by lia.
    apply Z.div_mul. lia. }
  rewrite to_int_finite by (rewrite ?Hdiv; lia).
  rewrite Hdiv. destruct (Z.ltb_spec n 0); lia.
Qed.

(** *** A duration that is a whole number of units *)

Lemma split_float_whole (unit_ d : Z) :
  0 < unit_ < 2 ^ 53 -> Z.rem d unit_ = 0 -> Z.abs (Z.quot d unit_) < 2 ^ 53 ->
  Float64.to_int (Time.split_float unit_ d) = Z.quot d unit_.
Proof.
  intros Hunit Hrem Hwhole. unfold Time.split_float.
  rewrite Hrem, of_int_zero.
  rewrite (of_int_finite unit_) by lia.
  replace (unit_ <? 0) with false by (symmetry; apply Z.ltb_ge; lia).
  unfold Float64.div. cbn [SFdiv xorb].
  destruct (Z.eq_dec (Z.quot d unit_) 0) as [->|Hq]; [reflexivity|].
  rewrite <- (to_int_of_int (Z.quot d unit_)) at 2 by assumption.
  rewrite (of_int_finite (Z.quot d unit_)) by assumption.
  reflexivity.
Qed.

(** *** Division of two normal numbers *)

Lemma Zdigits2_ge (m n : Z) : 0 < n -> 2 ^ (n - 1) <= m -> n <= Zdigits2 m.
Proof.
  intros Hn Hlo.
  assert (Hm : 0 < m) by (pose proof (Z.pow_pos_nonneg 2 (n - 1)); lia).
  pose proof (Zdigits2_bounds m Hm) as [_ Dhi].
  pose proof (Zdigits2_pos m Hm) as Dpos.
  destruct (Z.le_gt_cases n (Zdigits2 m)); [assumption|].
  assert (2 ^ Zdigits2 m <= 2 ^ (n - 1)) by (apply Z.pow_le_mono_r; lia). lia.
Qed.

Lemma Zdigits2_le (m n : Z) : 0 < m -> 0 <= n -> m < 2 ^ n -> Zdigits2 m <= n.
Proof.
  intros Hm Hn Hhi.
  pose proof (Zdigits2_bounds m Hm) as [Dlo _].
  pose proof (Zdigits2_pos m Hm) as Dpos.
  destruct (Z.le_gt_cases (Zdigits2 m) n); [assumption|].
  assert (2 ^ n <= 2 ^ (Zdigits2 m - 1)) by (apply Z.pow_le_mono_r; lia). lia.
Qed.

(** The mantissa that [of_int] gives has exactly 53 bits. *)
Lemma aligned_normal (n : Z) :
  0 < n < 2 ^ 53 ->
  2 ^ 52 <= n * 2 ^ (53 - Zdigits2 n) < 2 ^ 53.
Proof.
  intros Hn.
  pose proof (Zdigits2_bounds n ltac:(lia)) as [Dlo Dhi].
  pose proof (Zdigits2_pos n ltac:(lia)) as Dpos.
  pose proof (Zdigits2_le n 53 ltac:(lia) ltac:(lia) ltac:(lia)) as Dle.
  set (dg := Zdigits2 n) in *.
  assert (Hpow : 0 < 2 ^ (53 - dg)) by (apply Z.pow_pos_nonneg; lia).
  assert (E52 : 2 ^ 52 = 2 ^ (dg - 1) * 2 ^ (53 - dg))
    by (rewrite <- Z.pow_add_r by lia; f_equal; lia).
  assert (E53 : 2 ^ 53 = 2 ^ dg * 2 ^ (53 - dg))
    by (rewrite <- Z.pow_add_r by lia; f_equal; lia).
  rewrite E52, E53. nia.
Qed.

Lemma div_core_normal (mx my : positive) (ex ey : Z) :
  Zdigits2 (Zpos mx) = 53 -> Zdigits2 (Zpos my) = 53 -> -1021 <= ex - ey ->
  exists l,
    SFdiv_core_binary Float64.prec Float64.emax (Zpos mx) ex (Zpos my) ey =
    (Zpos mx * 2 ^ 53 / Zpos my, ex - ey - 53, l).
Proof.
  intros Hx Hy He. unfold SFdiv_core_binary. rewrite Hx, Hy.
  replace (53 + ex - (53 + ey)) with (ex - ey) by lia.
  rewrite fexp_normal by lia. rewrite Z.min_l by lia.
  replace (ex - ey - (ex - ey - 53)) with 53 by lia.
  rewrite Z.shiftl_mul_pow2 by lia.
  unfold Z.div at 1.
  destruct (Z.div_eucl (Zpos mx * 2 ^ 53) (Zpos my)) as [q r].
  eexists. reflexivity.
Qed.

(** The quotient of two normal numbers, before rounding, has 53 or 54
    bits; the rounded result is the integer quotient cut to 53 bits, or
    one unit above. *)
Lemma div_normal (mx my : positive) (ex ey : Z) :
  Zdigits2 (Zpos mx) = 53 -> Zdigits2 (Zpos my) = 53 ->
  -900 <= ex - ey <= 900 ->
  let Q := Zpos mx * 2 ^ 53 / Zpos my in
  exists mq eq k,
    Float64.div (S754_finite false mx ex) (S754_finite false my ey) =
    S754_finite false mq eq /\
    (k = 0 \/ k = 1) /\
    2 ^ 52 <= Zpos mq < 2 ^ 53 /\
    ((eq = ex - ey - 53 + k /\ Zpos mq * 2 ^ k <= Q + 2 ^ k) \/
     (eq = ex - ey - 53 + k + 1 /\ 2 ^ 53 * 2 ^ k <= Q + 2 ^ k /\
      Zpos mq = 2 ^ 52)).
Proof.
  intros Hx Hy He Q.
  pose proof (Zdigits2_bounds (Zpos mx) ltac:(lia)) as [Xlo Xhi].
  pose proof (Zdigits2_bounds (Zpos my) ltac:(lia)) as [Ylo Yhi].
  rewrite Hx in Xlo, Xhi. rewrite Hy in Ylo, Yhi.
  change (53 - 1) with 52 in *.
  assert (HQ : 2 ^ 52 <= Q < 2 ^ 54).
  { subst Q. split.
    - apply Z.div_le_lower_bound; [lia|].
      change (2 ^ 53) with (2 * 2 ^ 52) in *. nia.
    - apply Z.div_lt_upper_bound; [lia|].
      change (2 ^ 54) with (2 * 2 ^ 53) in *.
      change (2 ^ 53) with (2 * 2 ^ 52) in *. nia. }
  assert (Dlo : 53 <= Zdigits2 Q) by (apply Zdigits2_ge; [lia|cbn; lia]).
  assert (Dhi : Zdigits2 Q <= 54) by (apply Zdigits2_le; lia).
  destruct (div_core_normal mx my ex ey Hx Hy ltac:(lia)) as [l Hcore].
  fold Q in Hcore.
  unfold Float64.div. cbn [SFdiv xorb]. rewrite Hcore.
  destruct (round_aux_spec false Q (ex - ey - 53) l) as (m1 & Hcase & ->);
    try lia.
  pose proof (first_shift_normal Q ltac:(lia) ltac:(lia)) as Hnorm.
  cbv zeta in Hnorm.
  set (k := Zdigits2 Q - 53) in *.
  assert (Hk : k = 0 \/ k = 1) by lia.
  assert (Hup : m1 * 2 ^ k <= Q + 2 ^ k).
  { assert (Hp : 0 < 2 ^ k) by (apply Z.pow_pos_nonneg; lia).
    pose proof (Z.mul_div_le Q (2 ^ k) Hp).
    destruct Hcase as [->|[-> _]]; nia. }
  assert (Hm1 : 2 ^ 52 <= m1 <= 2 ^ 53)
    by (destruct Hcase as [->|[-> _]]; lia).
  destruct (Z.ltb_spec m1 (2 ^ 53)) as [Hlt|Hge].
  - exists (Z.to_pos m1), (ex - ey - 53 + k), k.
    rewrite Z2Pos.id by lia. repeat split; lia.
  - exists (Z.to_pos (2 ^ 52)), (ex - ey - 53 + k + 1), k.
    rewrite Z2Pos.id by lia.
    replace m1 with (2 ^ 53) in Hup by lia. repeat split; lia.
Qed.

(** *** A whole number plus a fraction below one *)

(** The float [q] stands for a fraction below [1 - 2 ^ (- g)]; the whole
    number [mn] leaves at least [g - 1] bits below the unit.  Then the
    rounded sum stays below [mn + 1]. *)
Lemma add_whole_fraction (mn g : Z) (mq : positive) (eq : Z) :
  0 < mn -> 1 <= g -> Zdigits2 mn <= 54 - g ->
  -900 <= eq <= -53 ->
  Zpos mq * 2 ^ g < (2 ^ g - 1) * 2 ^ (- eq) ->
  Float64.to_int
    (Float64.add (Float64.of_int mn) (S754_finite false mq eq)) = mn.
Proof.
  intros Hmn Hg Hdn Heq Hq.
  pose proof (Zdigits2_bounds mn Hmn) as [Nlo Nhi].
  pose proof (Zdigits2_pos mn Hmn) as Npos.
  set (dn := Zdigits2 mn) in *.
  assert (Hmn53 : mn < 2 ^ 53).
  { assert (2 ^ dn <= 2 ^ 53) by (apply Z.pow_le_mono_r; lia). lia. }
  set (k := dn - eq - 53).
  set (A := 2 ^ (53 - dn)). set (K := 2 ^ k). set (E := 2 ^ (- eq)).
  set (G := 2 ^ g) in *. set (H := 2 ^ (k - 1)).
  assert (HA : 0 < A) by (apply Z.pow_pos_nonneg; lia).
  assert (HH : 0 < H) by (apply Z.pow_pos_nonneg; lia).
  assert (HG : 0 < G) by (apply Z.pow_pos_nonneg; lia).
  assert (HK : K = 2 * H).
  { subst K H. replace k with (Z.succ (k - 1)) at 1 by lia.
    apply Z.pow_succ_r. lia. }
  assert (HE : E = A * K).
  { subst E A K. rewrite <- Z.pow_add_r by lia. f_equal. lia. }
  assert (HGA : G <= 2 * A).
  { subst G A. replace g with (Z.succ (g - 1)) by lia.
    rewrite Z.pow_succ_r by lia.
    assert (2 ^ (g - 1) <= 2 ^ (53 - dn)) by (apply Z.pow_le_mono_r; lia).
    lia. }
  assert (HD : 2 ^ dn = 2 * 2 ^ (dn - 1)).
  { replace dn with (Z.succ (dn - 1)) at 1 by lia. apply Z.pow_succ_r. lia. }
  assert (Hfrac : Zpos mq < E) by nia.
  (* the operands, aligned on the exponent of the fraction *)
  rewrite (of_int_finite mn) by lia. fold dn A.
  replace (mn <? 0) with false by (symmetry; apply Z.ltb_ge; lia).
  replace (Z.abs mn) with mn by lia.
  unfold Float64.add. cbn [SFadd].
  rewrite Z.min_r by lia.
  destruct (shl_align_down (Z.to_pos (mn * A)) (dn - 53) eq) as (mz & -> & Hmz);
    [lia|].
  rewrite Z2Pos.id in Hmz by nia.
  replace (dn - 53 - eq) with k in Hmz by (subst k; lia). fold K in Hmz.
  rewrite (shl_align_up mq eq eq) by lia.
  cbn [fst cond_Zopp Z.add binary_normalize].
  set (M := (mz + mq)%positive).
  assert (HM : Zpos M = mn * E + Zpos mq) by (subst M; rewrite HE; lia).
  assert (HMd : Zdigits2 (Zpos M) = dn - eq).
  { apply Zdigits2_unique; [|lia].
    replace (dn - eq - 1) with ((dn - 1) + (- eq)) by lia.
    replace (dn - eq) with (dn + (- eq)) by lia.
    rewrite !Z.pow_add_r by lia. fold E. nia. }
  unfold binary_round. change (Zpos (digits2_pos M)) with (Zdigits2 (Zpos M)).
  rewrite HMd, fexp_normal by lia.
  rewrite shl_align_up by lia.
  destruct (round_aux_spec false (Zpos M) eq loc_Exact) as (m1 & Hcase & ->);
    try (rewrite ?HMd; lia).
  rewrite HMd in *. fold k in Hcase |- *. fold K H in Hcase.
  (* the rounded mantissa lies between [mn] and [mn + 1] *)
  assert (Hm0 : mn * A <= Zpos M / K < (mn + 1) * A).
  { split.
    - apply Z.div_le_lower_bound; nia.
    - apply Z.div_lt_upper_bound; nia. }
  assert (Hm1 : mn * A <= m1 < (mn + 1) * A).
  { destruct Hcase as [->|[-> Hup]]; [exact Hm0|].
    split; [lia|].
    destruct Hup as [[_ [Hl|Hl]]|[_ Hhalf]]; try discriminate.
    destruct (Z.lt_ge_cases (Zpos M / K + 1) ((mn + 1) * A)) as [|Hfull];
      [assumption|exfalso].
    pose proof (Z.div_mod (Zpos M) K ltac:(lia)) as Hdm.
    assert (Hlow : E - H <= Zpos mq) by nia.
    assert (E * G - H * G < G * E - E) by nia.
    assert (A * (2 * H) < H * G) by nia.
    nia. }
  assert (E53 : 2 ^ 53 = 2 ^ dn * A).
  { subst A. rewrite <- Z.pow_add_r by lia. f_equal. lia. }
  assert (Hlt : m1 < 2 ^ 53) by nia.
  replace (m1 <? 2 ^ 53) with true by (symmetry; apply Z.ltb_lt; lia).
  replace (eq + k) with (dn - 53) by (subst k; lia).
  assert (Hdiv : Zpos (Z.to_pos m1) / 2 ^ (- (dn - 53)) = mn).
  { rewrite Z2Pos.id by nia.
    replace (- (dn - 53)) with (53 - dn) by lia. fold A.
    symmetry. apply Z.div_unique with (r := m1 - mn * A); nia. }
  rewrite to_int_finite by (rewrite ?Hdiv; lia).
  exact Hdiv.
Qed.

(** *** The fraction of a minute *)

Lemma of_int_Minute :
  Float64.of_int Time.Minute = S754_finite false 7864320000000000 (-17).
Proof. reflexivity. Qed.

(** [ns / Minute], rounded, stays below [1 - 2 ^ (- g)] when the exact
    quotient is below it with some room. *)
Lemma div_minute_below (ns g : Z) :
  0 < ns < Time.Minute -> 1 <= g <= 36 ->
  ns * 2 ^ g + 2 ^ 33 <= (2 ^ g - 1) * Time.Minute ->
  exists mq eq,
    Float64.div (Float64.of_int ns) (Float64.of_int Time.Minute) =
    S754_finite false mq eq /\
    -900 <= eq <= -53 /\
    Zpos mq * 2 ^ g < (2 ^ g - 1) * 2 ^ (- eq).
Proof.
  intros Hns Hg Hgap.
  change Time.Minute with 60000000000 in Hns, Hgap.
  assert (Hns53 : 0 < ns < 2 ^ 53) by lia.
  pose proof (Zdigits2_pos ns ltac:(lia)) as Dpos.
  pose proof (Zdigits2_le ns 36 ltac:(lia) ltac:(lia) ltac:(lia)) as Dle.
  pose proof (aligned_normal ns Hns53) as Hnorm.
  rewrite of_int_Minute, (of_int_finite ns) by lia.
  replace (ns <? 0) with false by (symmetry; apply Z.ltb_ge; lia).
  replace (Z.abs ns) with ns by lia.
  set (d1 := Zdigits2 ns) in *. set (T := 2 ^ (53 - d1)) in *.
  assert (HT : 2 ^ 17 <= T) by (apply Z.pow_le_mono_r; lia).
  destruct (div_normal (Z.to_pos (ns * T)) 7864320000000000 (d1 - 53) (-17))
    as (mq & eq & k & Hdiv & Hk & Hmq & Hcase).
  { rewrite Z2Pos.id by lia. apply Zdigits2_unique; [exact Hnorm|lia]. }
  { reflexivity. }
  { lia. }
  rewrite Z2Pos.id in Hcase by lia.
  exists mq, eq. split; [exact Hdiv|].
  set (Q := ns * T * 2 ^ 53 / 7864320000000000) in *.
  set (G := 2 ^ g) in *. set (E := 2 ^ (- eq)).
  assert (HG : 2 <= G <= 2 ^ 36).
  { subst G. split.
    - change 2 with (2 ^ 1) at 1. apply Z.pow_le_mono_r; lia.
    - apply Z.pow_le_mono_r; lia. }
  assert (HQ : Q * 60000000000 <= ns * (T * 2 ^ 36)).
  { pose proof (Z.mul_div_le (ns * T * 2 ^ 53) 7864320000000000 ltac:(lia)) as HQ.
    fold Q in HQ. change (2 ^ 53) with (2 ^ 36 * 2 ^ 17) in HQ.
    change 7864320000000000 with (60000000000 * 2 ^ 17) in HQ. lia. }
  set (W := T * 2 ^ 36) in *.
  assert (HW : 2 ^ 53 <= W) by (subst W; change (2 ^ 53) with (2 ^ 17 * 2 ^ 36); nia).
  (* the bound, with both sides scaled by the shift and by a minute *)
  assert (Hmain : forall c, 1 <= c <= 2 ->
            (Q + c) * G * 60000000000 < (G - 1) * 60000000000 * W).
  { intros c Hc.
    assert (S1 : Q * 60000000000 * G <= ns * W * G)
      by (apply Z.mul_le_mono_nonneg_r; lia).
    assert (S2 : (ns * G + 2 ^ 33) * W <= (G - 1) * 60000000000 * W)
      by (apply Z.mul_le_mono_nonneg_r; lia).
    assert (S3 : c * G <= 2 * 2 ^ 36) by (apply Z.mul_le_mono_nonneg; lia).
    lia. }
  assert (Hbound : Zpos mq * G < (G - 1) * E /\ eq <= 0).
  { destruct Hcase as [[Heq Hup]|[Heq [Hup Hcarry]]].
    - assert (HE : E * 2 ^ k = W /\ eq <= 0).
      { split; [|destruct Hk; lia]. subst E W T.
        change (2 ^ 36) with (2 ^ 36 * 2 ^ 0).
        rewrite <- !Z.pow_add_r by lia. f_equal. lia. }
      destruct HE as [HE Hle]. split; [|exact Hle].
      destruct Hk as [-> | ->];
        [change (2 ^ 0) with 1 in * | change (2 ^ 1) with 2 in *].
      + specialize (Hmain 1 ltac:(lia)). nia.
      + specialize (Hmain 2 ltac:(lia)). nia.
    - assert (HE : E * (2 * 2 ^ k) = W /\ eq <= 0).
      { split; [|destruct Hk; lia]. subst E W T.
        change 2 with (2 ^ 1) at 2.
        change (2 ^ 36) with (2 ^ 36 * 2 ^ 0).
        rewrite <- !Z.pow_add_r by lia. f_equal. lia. }
      destruct HE as [HE Hle]. split; [|exact Hle].
      rewrite Hcarry. change (2 ^ 53) with (2 * 2 ^ 52) in Hup.
      destruct Hk as [-> | ->];
        [change (2 ^ 0) with 1 in * | change (2 ^ 1) with 2 in *].
      + specialize (Hmain 1 ltac:(lia)). nia.
      + specialize (Hmain 2 ltac:(lia)). nia. }
  destruct Hbound as [Hbound Hle]. split; [|exact Hbound].
  split; [destruct Hcase as [[-> _]|[-> _]]; lia|].
  (* a normal mantissa below [2 ^ (- eq)] forces [eq <= -53] *)
  assert (Hfrac : Zpos mq < E) by nia.
  destruct (Z.le_gt_cases eq (-53)); [assumption|exfalso].
  assert (E <= 2 ^ 52) by (apply Z.pow_le_mono_r; lia).
  lia.
Qed.

(** [int(d.Minutes())] is the whole number of minutes up to the first
    duration where the binary64 sum rounds up to the next minute. *)
Lemma minutes_exact (d : Z) :
  0 <= d < 15728699999999999 ->
  Float64.to_int (Time.Minutes d) = d / Time.Minute.
Proof.
  intros Hd. change Time.Minute with 60000000000.
  pose proof (Z.div_mod d 60000000000 ltac:(lia)) as Hdm.
  pose proof (Z.mod_pos_bound d 60000000000 ltac:(lia)) as Hr.
  assert (Hmn : 0 <= d / 60000000000 <= 2 ^ 18).
  { split; [apply Z.div_pos; lia|].
    apply Z.lt_succ_r. apply Z.div_lt_upper_bound; lia. }
  destruct (Z.eq_dec (d mod 60000000000) 0) as [Hz|Hnz].
  { rewrite <- Z.quot_div_nonneg by lia.
    apply split_float_whole; [cbn; lia| |].
    - rewrite Z.rem_mod_nonneg by (cbn; lia). exact Hz.
    - rewrite Z.quot_div_nonneg by (cbn; lia).
      change Time.Minute with 60000000000. lia. }
  unfold Time.Minutes, Time.split_float.
  change Time.Minute with 60000000000.
  rewrite Z.quot_div_nonneg, Z.rem_mod_nonneg by lia.
  set (mn := d / 60000000000) in *. set (ns := d mod 60000000000) in *.
  assert (Hg : exists g, 1 <= g <= 36 /\
                  ns * 2 ^ g + 2 ^ 33 <= (2 ^ g - 1) * 60000000000 /\
                  (0 < mn -> Zdigits2 mn <= 54 - g)).
  { destruct (Z.eq_dec mn (2 ^ 18)) as [Htop|Hlow].
    - exists 35. split; [lia|]. split; [lia|]. intros _. now rewrite Htop.
    - exists 36. split; [lia|]. split; [lia|]. intros Hpos.
      apply Zdigits2_le; lia. }
  destruct Hg as (g & Hg & Hgap & Hdig).
  destruct (div_minute_below ns g) as (mq & eq & Hdiv & Heq & Hq);
    [change Time.Minute with 60000000000; lia|lia|exact Hgap|].
  change Time.Minute with 60000000000 in Hdiv. rewrite Hdiv.
  destruct (Z.eq_dec mn 0) as [->|Hpos].
  - rewrite of_int_zero. unfold Float64.add. cbn [SFadd].
    assert (HG : 0 < 2 ^ g) by (apply Z.pow_pos_nonneg; lia).
    assert (HE : 0 < 2 ^ (- eq)) by (apply Z.pow_pos_nonneg; lia).
    assert (Hsmall : Zpos mq / 2 ^ (- eq) = 0) by (apply Z.div_small; nia).
    rewrite to_int_finite by (rewrite ?Hsmall; lia). exact Hsmall.
  - apply add_whole_fraction with (g := g); lia.
Qed.

End FloatFacts.

(** * Properties of the formatters *)

(** ** [Round] to the second *)

Lemma wrap_in_range (n : Z) : Int64.in_range n -> Int64.wrap n = n.
Proof.
  unfold Int64.in_range, Int64.wrap, Int64.min_int, Int64.max_int.
  intros Hn. rewrite Z.mod_small; lia.
Qed.

Lemma wrap_wrap_add (a b : Z) : Int64.wrap (Int64.wrap a + b) = Int64.wrap (a + b).
Proof.
  unfold Int64.wrap. f_equal.
  replace ((a + 2 ^ 63) mod 2 ^ 64 - 2 ^ 63 + b + 2 ^ 63)
    with ((a + 2 ^ 63) mod 2 ^ 64 + b) by lia.
  rewrite Z.add_mod_idemp_l by lia. f_equal. lia.
Qed.

Lemma lessThanHalf_small (r m : Z) :
  0 <= r < 2 ^ 62 -> 0 <= m < 2 ^ 63 ->
  Time.lessThanHalf r m = (2 * r <? m).
Proof.
  intros Hr Hm. unfold Time.lessThanHalf, Int64.to_uint64.
  rewrite (Z.mod_small r), (Z.mod_small m), (Z.mod_small (r + r)) by lia.
  f_equal. lia.
Qed.

(** A span that is not negative: the nearest second, or the largest
    duration when that second does not fit. *)
Lemma Round_second_nonneg (d : Z) :
  0 <= d <= Int64.max_int ->
  Time.Round d Time.Second =
  if d <? 9223372036500000000 then nearest_second d * Time.Second
  else Time.maxDuration.
Proof.
  unfold Int64.max_int, Time.maxDuration, nearest_second.
  change Time.Second with 1000000000. intros Hd.
  unfold Time.Round. cbn [Z.leb Z.compare].
  replace (d <? 0) with false by (symmetry; apply Z.ltb_ge; lia).
  replace (0 <=? d) with true by (symmetry; apply Z.leb_le; lia).
  rewrite Z.rem_mod_nonneg by lia.
  pose proof (Z.div_mod d 1000000000 ltac:(lia)) as Hdm.
  pose proof (Z.mod_pos_bound d 1000000000 ltac:(lia)) as Hr.
  set (q := d / 1000000000) in *. set (r := d mod 1000000000) in *.
  rewrite lessThanHalf_small by lia.
  destruct (Z.ltb_spec (2 * r) 1000000000) as [Hhalf|Hhalf].
  - assert (Hn : (d + 500000000) / 1000000000 = q).
    { symmetry. apply Z.div_unique with (r := r + 500000000); lia. }
    rewrite Hn.
    replace (d <? 9223372036500000000) with true
      by (symmetry; apply Z.ltb_lt; lia).
    rewrite wrap_in_range by (unfold Int64.in_range, Int64.min_int, Int64.max_int; lia).
    lia.
  - assert (Hn : (d + 500000000) / 1000000000 = q + 1).
    { symmetry. apply Z.div_unique with (r := r - 500000000); lia. }
    rewrite Hn.
    replace (Int64.wrap (d + 1000000000) - r)
      with (Int64.wrap (d + 1000000000) + - r) by lia.
    rewrite wrap_wrap_add.
    replace (d + 1000000000 + - r) with ((q + 1) * 1000000000) by lia.
    destruct (Z.ltb_spec d 9223372036500000000) as [Hfit|Hover].
    + rewrite wrap_in_range
        by (unfold Int64.in_range, Int64.min_int, Int64.max_int; lia).
      replace (d <? (q + 1) * 1000000000) with true
        by (symmetry; apply Z.ltb_lt; lia).
      reflexivity.
    + assert (Hq : q = 9223372036) by lia.
      rewrite Hq. replace (d <? Int64.wrap ((9223372036 + 1) * 1000000000))
        with false; [reflexivity|].
      symmetry. apply Z.ltb_ge.
      assert (Hw : Int64.wrap ((9223372036 + 1) * 1000000000) =
                   -9223372036709551616) by (vm_compute; reflexivity).
      rewrite Hw. lia.
Qed.

(** A negative span: a whole number of seconds that is not positive, or
    the smallest duration when the nearest second does not fit. *)
Lemma Round_second_neg (d : Z) :
  Int64.min_int <= d < 0 ->
  Time.Round d Time.Second = Time.minDuration \/
  exists n, -9223372036 <= n <= 0 /\ Time.Round d Time.Second = n * Time.Second.
Proof.
  unfold Int64.min_int, Time.minDuration.
  change Time.Second with 1000000000. intros Hd.
  unfold Time.Round. cbn [Z.leb Z.compare].
  replace (d <? 0) with true by (symmetry; apply Z.ltb_lt; lia).
  pose proof (Z.quot_rem' d 1000000000) as Hqr.
  pose proof (Z.rem_bound_pos_neg d 1000000000 ltac:(lia) ltac:(lia)) as Hr.
  set (q := Z.quot d 1000000000) in *. set (r0 := Z.rem d 1000000000) in *.
  rewrite (wrap_in_range (- r0))
    by (unfold Int64.in_range, Int64.min_int, Int64.max_int; lia).
  rewrite lessThanHalf_small by lia.
  destruct (Z.ltb_spec (2 * - r0) 1000000000) as [Hhalf|Hhalf].
  - right. exists q. split; [lia|].
    rewrite wrap_in_range
      by (unfold Int64.in_range, Int64.min_int, Int64.max_int; lia).
    lia.
  - rewrite wrap_wrap_add.
    replace (d - 1000000000 + - r0) with ((q - 1) * 1000000000) by lia.
    destruct (Z.le_gt_cases (-9223372036) (q - 1)) as [Hfit|Hunder].
    + right. exists (q - 1). split; [lia|].
      rewrite wrap_in_range
        by (unfold Int64.in_range, Int64.min_int, Int64.max_int; lia).
      replace ((q - 1) * 1000000000 <? d) with true
        by (symmetry; apply Z.ltb_lt; lia).
      reflexivity.
    + left. assert (Hq : q = -9223372036) by lia. rewrite Hq.
      replace (Int64.wrap ((-9223372036 - 1) * 1000000000) <? d) with false;
        [reflexivity|].
      symmetry. apply Z.ltb_ge.
      assert (Hw : Int64.wrap ((-9223372036 - 1) * 1000000000) =
                   9223372036709551616) by (vm_compute; reflexivity).
      rewrite Hw. lia.
Qed.

(** ** The countdown *)

(** The text of the three fields, for a number of seconds. *)
Lemma formatDuration_fields (d : Z) :
  formatDuration d =
  let total := Float64.to_int (Time.Seconds (Time.Round d Time.Second)) in
  let total := if total <? 0 then 0 else total in
  Fmt.cat [Fmt.itoa (Z.quot total 3600); "h ";
           Fmt.itoa (Z.rem (Z.quot total 60) 60); "m ";
           Fmt.itoa (Z.rem total 60); "s"]%string.
Proof. reflexivity. Qed.

Lemma seconds_whole (n : Z) :
  Z.abs n < 2 ^ 53 ->
  Float64.to_int (Time.Seconds (n * Time.Second)) = n.
Proof.
  intros Hn. unfold Time.Seconds.
  rewrite FloatFacts.split_float_whole.
  - apply Z.quot_mul. discriminate.
  - cbn. lia.
  - apply Z.rem_mul. discriminate.
  - rewrite Z.quot_mul by discriminate. exact Hn.
Qed.

Lemma formatDuration_nonpos (d : Z) :
  Int64.in_range d -> d <= 0 -> formatDuration d = "0h 0m 0s"%string.
Proof.
  intros [Hlo _] Hd. rewrite formatDuration_fields.
  assert (Htotal : Float64.to_int (Time.Seconds (Time.Round d Time.Second)) <= 0).
  { destruct (Z.eq_dec d 0) as [->|Hnz]; [vm_compute; discriminate|].
    destruct (Round_second_neg d ltac:(lia)) as [->|(n & Hn & ->)].
    - vm_compute. discriminate.
    - rewrite seconds_whole by lia. lia. }
  cbv zeta.
  destruct (Z.ltb_spec (Float64.to_int (Time.Seconds (Time.Round d Time.Second))) 0)
    as [_|Hge]; [reflexivity|].
  replace (Float64.to_int (Time.Seconds (Time.Round d Time.Second))) with 0 by lia.
  reflexivity.
Qed.

Lemma countdown_rule_nonpos (d : Z) :
  d <= 0 -> countdown_rule d = "0h 0m 0s"%string.
Proof.
  intros Hd. unfold countdown_rule.
  assert (Hn : nearest_second d <= 0).
  { unfold nearest_second. destruct (Z.leb_spec 0 d).
    - replace d with 0 by lia. vm_compute. discriminate.
    - assert (0 <= (- d + 500000000) / 1000000000) by (apply Z.div_pos; lia).
      lia. }
  rewrite Z.max_l by assumption. reflexivity.
Qed.

Lemma formatDuration_rule (d : Z) :
  Int64.in_range d -> d < 9223372036500000000 ->
  formatDuration d = countdown_rule d.
Proof.
  intros Hrange Hd.
  destruct (Z.le_gt_cases d 0) as [Hneg|Hpos].
  { now rewrite formatDuration_nonpos, countdown_rule_nonpos. }
  rewrite formatDuration_fields, Round_second_nonneg
    by (destruct Hrange; lia).
  replace (d <? 9223372036500000000) with true by (symmetry; apply Z.ltb_lt; lia).
  assert (Hn : 0 <= nearest_second d <= 9223372036).
  { unfold nearest_second.
    replace (0 <=? d) with true by (symmetry; apply Z.leb_le; lia).
    split; [apply Z.div_pos; lia|].
    apply Z.lt_succ_r. apply Z.div_lt_upper_bound; lia. }
  rewrite seconds_whole by lia. cbv zeta. unfold countdown_rule.
  rewrite Z.max_r by lia.
  set (n := nearest_second d) in *.
  replace (n <? 0) with false by (symmetry; apply Z.ltb_ge; lia).
  assert (0 <= n / 60) by (apply Z.div_pos; lia).
  rewrite !Z.quot_div_nonneg, !Z.rem_mod_nonneg by lia.
  reflexivity.
Qed.

Lemma formatDuration_saturated (d : Z) :
  Int64.in_range d -> 9223372036500000000 <= d ->
  formatDuration d = "2562047h 47m 16s"%string.
Proof.
  intros [_ Hhi] Hd.
  rewrite formatDuration_fields, Round_second_nonneg by lia.
  replace (d <? 9223372036500000000) with false by (symmetry; apply Z.ltb_ge; lia).
  vm_compute. reflexivity.
Qed.

(** C7 (amended): for every span below 9223372036.5 seconds the countdown
    is "<H>h <M>m <S>s" with the three fields computed from the span
    rounded to the nearest second and clamped at zero; 3661 seconds give
    "1h 1m 1s", every span that is zero or negative gives "0h 0m 0s"; from
    9223372036.5 seconds on [Round] saturates and the text is
    "2562047h 47m 16s". *)
Theorem countdown_format :
  (forall d, Int64.in_range d -> d < 9223372036500000000 ->
             formatDuration d = countdown_rule d) /\
  (forall d, Int64.in_range d -> d <= 0 ->
             formatDuration d = "0h 0m 0s"%string) /\
  formatDuration (3661 * Time.Second) = "1h 1m 1s"%string /\
  (forall d, Int64.in_range d -> 9223372036500000000 <= d ->
             formatDuration d = "2562047h 47m 16s"%string).
Proof.
  split; [exact formatDuration_rule|].
  split; [exact formatDuration_nonpos|].
  split; [vm_compute; reflexivity|exact formatDuration_saturated].
Qed.

Lemma countdown_format_witness :
  formatDuration 59500000000 = countdown_rule 59500000000 /\
  formatDuration (-1500000000) = "0h 0m 0s"%string /\
  formatDuration 9223372036700000000 = "2562047h 47m 16s"%string.
Proof.
  destruct countdown_format as (Hrule & Hzero & _ & Hsat).
  split; [|split].
  - apply Hrule; [vm_compute; split; discriminate|reflexivity].
  - apply Hzero; [vm_compute; split; discriminate|vm_compute; discriminate].
  - apply Hsat; [vm_compute; split; discriminate|vm_compute; discriminate].
Defined.

(** C7 as stated fails at the largest duration: its nearest second is
    9223372037, the countdown shows 9223372036 seconds. *)
Lemma countdown_saturates :
  formatDuration Int64.max_int = "2562047h 47m 16s"%string /\
  countdown_rule Int64.max_int = "2562047h 47m 17s"%string /\
  formatDuration Int64.max_int <> countdown_rule Int64.max_int.
Proof.
  split; [vm_compute; reflexivity|].
  split; [vm_compute; reflexivity|].
  vm_compute. discriminate.
Qed.

(** ** The friendly duration *)

Lemma hours_exact (d : Z) :
  0 <= d <= Int64.max_int -> d mod Time.Hour = 0 ->
  Float64.to_int (Time.Hours d) = d / Time.Hour.
Proof.
  unfold Int64.max_int. change Time.Hour with 3600000000000.
  intros Hd Hmod. rewrite <- Z.quot_div_nonneg by lia.
  assert (Hq : 0 <= d / 3600000000000 < 2 ^ 53).
  { split; [apply Z.div_pos; lia|]. apply Z.div_lt_upper_bound; lia. }
  apply FloatFacts.split_float_whole; [lia| |].
  - now rewrite Z.rem_mod_nonneg by lia.
  - rewrite Z.quot_div_nonneg by lia. lia.
Qed.

Lemma formatFriendlyDuration_rule (d : Z) :
  Int64.in_range d ->
  d < 15728699999999999 \/ d mod Time.Hour = 0 ->
  formatFriendlyDuration d = friendly_rule d.
Proof.
  intros [_ Hhi] Hd. unfold formatFriendlyDuration, friendly_rule.
  destruct (Z.ltb_spec d 0) as [Hneg|Hpos]; [reflexivity|].
  rewrite Z.rem_mod_nonneg by (cbn; lia).
  assert (Hcond : (Time.Hour <=? d) && (d mod Time.Hour =? 0) =
                  (0 <? d) && (d mod Time.Hour =? 0)).
  { destruct (Z.eqb_spec (d mod Time.Hour) 0) as [Hz|Hnz];
      [|now rewrite !andb_false_r].
    rewrite !andb_true_r.
    pose proof (Z.div_mod d Time.Hour ltac:(discriminate)) as Hdm.
    rewrite Hz in Hdm. change Time.Hour with 3600000000000 in *.
    destruct (Z.ltb_spec 0 d); [apply Z.leb_le|apply Z.leb_gt]; lia. }
  rewrite Hcond.
  destruct ((0 <? d) && (d mod Time.Hour =? 0)) eqn:Hhour.
  - apply andb_true_iff in Hhour. destruct Hhour as [_ Hz].
    apply Z.eqb_eq in Hz. now rewrite hours_exact by (try split; lia).
  - rewrite FloatFacts.minutes_exact; [reflexivity|].
    split; [lia|]. destruct Hd as [Hd|Hz]; [exact Hd|].
    rewrite Hz in Hhour. cbn [Z.eqb] in Hhour. rewrite andb_true_r in Hhour.
    apply Z.ltb_ge in Hhour. lia.
Qed.

(** C6 (amended): for every duration that is below 15728699999999999 ns
    (2^18 minutes, one minute less two nanoseconds) or an exact multiple of
    one hour, the friendly form is "Infinity" for a negative duration,
    "<N>h" for an exact positive multiple of one hour, and "<N>m" with the
    whole minutes rounded down otherwise; 10 minutes give "10m", one hour
    "1h", 90 minutes "90m" and the sentinel -1 "Infinity". *)
Theorem friendly_format :
  (forall d, Int64.in_range d ->
             d < 15728699999999999 \/ d mod Time.Hour = 0 ->
             formatFriendlyDuration d = friendly_rule d) /\
  formatFriendlyDuration (10 * Time.Minute) = "10m"%string /\
  formatFriendlyDuration (1 * Time.Hour) = "1h"%string /\
  formatFriendlyDuration (90 * Time.Minute) = "90m"%string /\
  formatFriendlyDuration (-1) = "Infinity"%string.
Proof.
  split; [exact formatFriendlyDuration_rule|].
  repeat split; vm_compute; reflexivity.
Qed.

Lemma friendly_format_witness :
  formatFriendlyDuration 15728699999999998 = friendly_rule 15728699999999998 /\
  formatFriendlyDuration (2562047 * Time.Hour) = friendly_rule (2562047 * Time.Hour).
Proof.
  destruct friendly_format as (Hrule & _).
  split.
  - apply Hrule; [vm_compute; split; discriminate|left; reflexivity].
  - apply Hrule; [vm_compute; split; discriminate|right; reflexivity].
Defined.

(** C6 as stated fails at 2^18 minutes plus one minute less a nanosecond:
    the binary64 sum of the whole minutes and the fraction rounds up to
    the next whole minute. *)
Lemma friendly_rounds_up :
  formatFriendlyDuration 15728699999999999 = "262145m"%string /\
  friendly_rule 15728699999999999 = "262144m"%string /\
  formatFriendlyDuration 15728699999999999 <> friendly_rule 15728699999999999.
Proof.
  split; [vm_compute; reflexivity|].
  split; [vm_compute; reflexivity|].
  vm_compute. discriminate.
Qed.

(** * More properties of the event loop *)

(** ** Power calls and the session *)

(** A step either makes no power call and keeps the variables, or makes
    the one call that fits the session it leaves. *)
Lemma handle_sync (ev : Event) (th : Thread) (v : Vars) :
  let r := handle ev th v in
  (vars_of r = v /\ power_calls (trace_of r) = []) \/
  (isActive (vars_of r) = true /\
   power_calls (trace_of r) = [preventSleep_request]) \/
  (isActive (vars_of r) = false /\
   power_calls (trace_of r) = [allowSleep_request]).
Proof.
  destruct ev as [ | | | m now | now]; cbn zeta.
  - left. now rewrite handle_info.
  - left. now rewrite handle_quit.
  - right; right. rewrite handle_stop. split; [reflexivity|].
    unfold trace_of at 1. cbn [snd].
    now rewrite power_calls_app, power_calls_resetState.
  - right; left. rewrite handle_control. split.
    + now rewrite startSession_run.
    + unfold trace_of at 1. cbn [snd].
      now rewrite power_calls_app, power_calls_startSession.
  - destruct (isActive v) eqn:Hact; [|left; now rewrite handle_tick_idle].
    destruct (isInfinite v) eqn:Hinf; [left; now rewrite handle_tick_infinite|].
    destruct (Z.le_gt_cases (sessionEndTime v) now).
    + right; right. rewrite handle_tick_expired by assumption.
      split; [reflexivity|]. unfold trace_of at 1. cbn [snd].
      now rewrite power_calls_app, power_calls_resetState.
    + left. now rewrite handle_tick_running by assumption.
Qed.

Lemma loop_cons (ev : Event) (rest : list Event) (th : Thread) (v : Vars) :
  let r := handle ev th v in
  loop (ev :: rest) th v =
  if value_of r then
    (value_of (loop rest th (vars_of r)), vars_of (loop rest th (vars_of r)),
     trace_of r ++ trace_of (loop rest th (vars_of r)))
  else (true, vars_of r, trace_of r).
Proof.
  cbn zeta. destruct (handle ev th v) as [[[|] v1] t1] eqn:Hev.
  - now rewrite (loop_continue _ _ _ _ _ _ Hev).
  - now rewrite (loop_return _ _ _ _ _ _ Hev).
Qed.

Lemma loop_power_calls (evs : list Event) (th : Thread) :
  forall v,
    Forall (fun e => e = allowSleep_request \/ e = preventSleep_request)
           (power_calls (trace_of (loop evs th v))).
Proof.
  induction evs as [|ev rest IH]; intros v; [constructor|].
  rewrite loop_cons. cbn zeta.
  assert (Hstep : Forall (fun e => e = allowSleep_request \/ e = preventSleep_request)
                         (power_calls (trace_of (handle ev th v)))).
  { destruct (handle_sync ev th v) as [[_ ->]|[[_ ->]|[_ ->]]].
    - constructor.
    - constructor; [now right|constructor].
    - constructor; [now left|constructor]. }
  destruct (value_of (handle ev th v)); unfold trace_of at 1; cbn [snd].
  - rewrite power_calls_app. apply Forall_app. split; [exact Hstep|apply IH].
  - exact Hstep.
Qed.

Lemma power_calls_run_main (evs : list Event) :
  power_calls (run_main true evs) =
  allowSleep_request :: power_calls (trace_of (loop evs LoopGoroutine zeroVars)).
Proof.
  rewrite run_main_single. cbn zeta.
  change (allowSleep_request :: ?t) with ([allowSleep_request] ++ t).
  rewrite !power_calls_app.
  destruct (createMenu_run MainGoroutine zeroVars) as (_ & _ & ->).
  replace (power_calls
             (if value_of (loop evs LoopGoroutine zeroVars)
              then trace_of (onExit MainGoroutine
                               (vars_of (loop evs LoopGoroutine zeroVars)))
              else [])) with (@nil Effect)
    by (destruct (value_of (loop evs LoopGoroutine zeroVars)); reflexivity).
  now rewrite app_nil_r.
Qed.

(** X1: in every run of the program, whatever the answer of the
    single-instance check and whatever events arrive, each call of
    [SetThreadExecutionState] is one of the two requests [allowSleep]
    (flags 0x80000000) and [preventSleep] (flags 0x80000003), and it runs
    on the locked thread of [startExecThread]. *)
Theorem power_calls_only_on_exec_thread (single : bool) (evs : list Event) :
  Forall (fun e => (e = allowSleep_request \/ e = preventSleep_request) /\
                   on e = ExecThread)
         (power_calls (run_main single evs)).
Proof.
  assert (Hboth : Forall (fun e => e = allowSleep_request \/ e = preventSleep_request)
                         (power_calls (run_main single evs))).
  { destruct single; [|constructor].
    rewrite power_calls_run_main. constructor; [now left|].
    apply loop_power_calls. }
  eapply Forall_impl; [|exact Hboth].
  intros e [-> | ->]; split; auto.
Qed.

Lemma last_app_singleton {A} (l : list A) (x d : A) : last (l ++ [x]) d = x.
Proof. apply last_last. Qed.

Lemma loop_last_power_call (evs : list Event) (th : Thread) :
  forall (v : Vars) (before : list Effect),
    last before allowSleep_request =
      (if isActive v then preventSleep_request else allowSleep_request) ->
    let r := loop evs th v in
    last (before ++ power_calls (trace_of r)) allowSleep_request =
      (if isActive (vars_of r) then preventSleep_request else allowSleep_request).
Proof.
  induction evs as [|ev rest IH]; intros v before Hbefore; cbn zeta.
  - cbn. now rewrite app_nil_r.
  - rewrite loop_cons. cbn zeta.
    assert (Hstep : last (before ++ power_calls (trace_of (handle ev th v)))
                         allowSleep_request =
                    (if isActive (vars_of (handle ev th v))
                     then preventSleep_request else allowSleep_request)).
    { destruct (handle_sync ev th v) as [[-> ->]|[[-> ->]|[-> ->]]].
      - now rewrite app_nil_r.
      - apply last_last.
      - apply last_last. }
    destruct (value_of (handle ev th v)).
    + unfold trace_of at 1, vars_of at 1. cbn [fst snd].
      rewrite power_calls_app, app_assoc.
      apply (IH (vars_of (handle ev th v))). exact Hstep.
    + exact Hstep.
Qed.

(** X2: at the end of every run of a single instance, the last power call
    made is [preventSleep] exactly when the session variables are active,
    and [allowSleep] otherwise; this holds after a quit as well, so a
    session that is active at quit leaves the sleep prevention requested. *)
Theorem last_power_call_matches_session (evs : list Event) :
  let r := loop evs LoopGoroutine zeroVars in
  last (power_calls (run_main true evs)) allowSleep_request =
  if isActive (vars_of r) then preventSleep_request else allowSleep_request.
Proof.
  cbn zeta. rewrite power_calls_run_main.
  change (allowSleep_request :: ?t) with ([allowSleep_request] ++ t).
  apply loop_last_power_call. reflexivity.
Qed.

(** ** Quit *)

Lemma loop_quit_cut (before after : list Event) (th : Thread) :
  forall v,
    loop (before ++ QuitClicked :: after) th v =
    loop (before ++ [QuitClicked]) th v.
Proof.
  induction before as [|ev rest IH]; intros v; cbn [app].
  - now rewrite !(loop_return _ _ _ _ _ _ (handle_quit th v)).
  - rewrite !loop_cons. cbn zeta.
    destruct (value_of (handle ev th v)); [|reflexivity].
    now rewrite IH.
Qed.

(** X3: the events that arrive after a quit click change nothing: the
    trace of the whole program is the one of the run that ends with the
    quit. *)
Theorem nothing_after_quit (before after : list Event) :
  run_main true (before ++ QuitClicked :: after) =
  run_main true (before ++ [QuitClicked]).
Proof.
  rewrite !run_main_single. cbn zeta. now rewrite loop_quit_cut.
Qed.

(** ** Ticks *)

(** X4: a tick that finds the session in Decaf or Active-Infinite does
    nothing at all; one that finds a timed session before its end time
    keeps the variables, makes no power call and pushes no notification. *)
Theorem tick_without_expiry (th : Thread) (v : Vars) (now : Time.Instant) :
  let r := handle (Tick now) th v in
  (in_state v Decaf \/ in_state v ActiveInfinite -> r = (true, v, [])) /\
  (in_state v ActiveTimed -> now < sessionEndTime v ->
   vars_of r = v /\ power_calls (trace_of r) = [] /\
   forall title, toasts title (trace_of r) = []).
Proof.
  cbn zeta. split.
  - intros [[Hact _]|[_ Hinf]].
    + now apply handle_tick_idle.
    + now apply handle_tick_infinite.
  - intros [Hact Hfin] Hend.
    rewrite handle_tick_running by assumption. repeat split.
Qed.

Lemma tick_without_expiry_witness :
  handle (Tick 5) LoopGoroutine zeroVars = (true, zeroVars, []) /\
  vars_of (handle (Tick 5) LoopGoroutine (mkVars true false 9 "Drop")) =
    mkVars true false 9 "Drop".
Proof.
  split.
  - apply (tick_without_expiry LoopGoroutine zeroVars 5).
    left. split; reflexivity.
  - apply (tick_without_expiry LoopGoroutine (mkVars true false 9 "Drop") 5).
    + split; reflexivity.
    + reflexivity.
Defined.

Lemma Until_in_range (t now : Time.Instant) :
  Int64.in_range (t - now) -> Time.Until t now = t - now.
Proof.
  unfold Int64.in_range, Time.Until, Int64.saturate. lia.
Qed.

(** X5: while a timed session is running, a tick at [now], less than
    9223372036.5 seconds before the end time, sets the menu line to
    "Time left: " and the tooltip to "<mode> mode: ... remaining", both
    with the countdown of the rule for [end - now]; it makes no other
    call. *)
Theorem tick_shows_countdown (th : Thread) (v : Vars) (now : Time.Instant) :
  in_state v ActiveTimed ->
  now < sessionEndTime v ->
  sessionEndTime v - now < 9223372036500000000 ->
  trace_of (handle (Tick now) th v) =
  let timeStr := countdown_rule (sessionEndTime v - now) in
  [ mkEffect th (ItemSetTitle mTimeLeft (Fmt.cat ["Time left: "; timeStr]%string));
    mkEffect th (SystraySetTooltip
      (Fmt.cat [currentModeName v; " mode: "; timeStr; " remaining"]%string)) ].
Proof.
  intros [Hact Hfin] Hend Hfit.
  assert (Hrange : Int64.in_range (sessionEndTime v - now))
    by (unfold Int64.in_range, Int64.min_int, Int64.max_int; lia).
  rewrite handle_tick_running by assumption.
  unfold trace_of. cbn [snd]. cbv zeta.
  rewrite Until_in_range by assumption.
  now rewrite formatDuration_rule by assumption.
Qed.

Lemma tick_shows_countdown_witness :
  trace_of (handle (Tick 1000000000) LoopGoroutine
              (mkVars true false 3662000000000 "Cappuccino")) =
  [ mkEffect LoopGoroutine (ItemSetTitle mTimeLeft "Time left: 1h 1m 1s");
    mkEffect LoopGoroutine
      (SystraySetTooltip "Cappuccino mode: 1h 1m 1s remaining") ].
Proof.
  rewrite (tick_shows_countdown LoopGoroutine
             (mkVars true false 3662000000000 "Cappuccino") 1000000000).
  - vm_compute. reflexivity.
  - split; reflexivity.
  - reflexivity.
  - reflexivity.
Defined.

(** ** Starts *)

(** X6: a start with duration zero is a timed session, not an infinite
    one: its end time is the time of the start, and the first tick at or
    after that time ends it with one [allowSleep]. *)
Theorem zero_duration_expires_at_once (th : Thread) (v : Vars)
        (m : EspressoMode) (now later : Time.Instant) :
  Duration m = 0 -> now <= later ->
  let r1 := handle (Control m now) th v in
  let r2 := handle (Tick later) th (vars_of r1) in
  in_state (vars_of r1) ActiveTimed /\
  sessionEndTime (vars_of r1) = now /\
  in_state (vars_of r2) Decaf /\
  power_calls (trace_of r2) = [allowSleep_request].
Proof.
  intros Hd Hlater r1 r2.
  assert (H1 : vars_of r1 = mkVars true false now (findName modes 0 "Custom")).
  { subst r1. rewrite handle_control, startSession_run, Hd.
    unfold vars_of, Time.Add. cbn [fst snd Z.ltb Z.compare]. f_equal. lia. }
  subst r2. rewrite H1.
  rewrite handle_tick_expired by (cbn; auto; lia).
  repeat split.
Qed.

Lemma zero_duration_expires_at_once_witness :
  let r1 := handle (Control (mkMode "Sip" 0 "") 7) LoopGoroutine zeroVars in
  let r2 := handle (Tick 7) LoopGoroutine (vars_of r1) in
  in_state (vars_of r1) ActiveTimed /\
  sessionEndTime (vars_of r1) = 7 /\
  in_state (vars_of r2) Decaf /\
  power_calls (trace_of r2) = [allowSleep_request].
Proof.
  apply (zero_duration_expires_at_once LoopGoroutine zeroVars
           (mkMode "Sip" 0 "") 7 7).
  - reflexivity.
  - lia.
Defined.

(** X7: the durations of the nine presets are pairwise different, so a
    click on a preset names the session after that very preset: the mode
    name and the title of the notification agree. *)
Theorem preset_keeps_its_name (th : Thread) (v : Vars) (m : EspressoMode)
        (now : Time.Instant) :
  In m modes ->
  let r := handle (Control m now) th v in
  currentModeName (vars_of r) = Name m /\
  exists text,
    In (mkEffect th (ToastPush (Fmt.cat [currentModeName (vars_of r);
                                         " Mode Started"]%string) text IconOn))
       (trace_of r).
Proof.
  intros Hin r.
  assert (Hname : currentModeName (vars_of r) = Name m).
  { subst r. rewrite handle_control, startSession_run.
    unfold vars_of. cbn [fst snd currentModeName].
    unfold modes in Hin. cbn [In] in Hin.
    repeat (destruct Hin as [<-|Hin]; [reflexivity|]). contradiction. }
  split; [exact Hname|]. rewrite Hname. subst r. rewrite handle_control.
  eexists. unfold trace_of at 1. cbn [snd].
  apply in_or_app. right. left. reflexivity.
Qed.

Lemma preset_keeps_its_name_witness :
  let m := mkMode "Lungo" (8 * Time.Hour) "Super concentrated, extended energy." in
  currentModeName (vars_of (handle (Control m 0) LoopGoroutine zeroVars)) = "Lungo"%string.
Proof.
  intros m.
  apply (preset_keeps_its_name LoopGoroutine zeroVars m 0).
  do 6 right. left. reflexivity.
Defined.

Lemma start_infinite_vars (th : Thread) (v : Vars) (m : EspressoMode)
      (now : Time.Instant) :
  Duration m < 0 ->
  isActive (vars_of (handle (Control m now) th v)) = true /\
  isInfinite (vars_of (handle (Control m now) th v)) = true.
Proof.
  intros Hd. rewrite handle_control, startSession_run.
  replace (Duration m <? 0) with true by (symmetry; apply Z.ltb_lt; lia).
  split; reflexivity.
Qed.

(** X8: a start during a session replaces it: after a second start with
    a duration that is not negative, the end time is the one of the second
    start, and a tick before it leaves the session running even when the
    end time of the first start has passed. *)
Theorem restart_replaces_end_time (th : Thread) (v : Vars)
        (m1 m2 : EspressoMode) (t1 t2 now : Time.Instant) :
  0 <= Duration m2 -> now < t2 + Duration m2 ->
  let r1 := handle (Control m1 t1) th v in
  let r2 := handle (Control m2 t2) th (vars_of r1) in
  let r3 := handle (Tick now) th (vars_of r2) in
  in_state (vars_of r3) ActiveTimed /\
  sessionEndTime (vars_of r3) = t2 + Duration m2 /\
  power_calls (trace_of r3) = [].
Proof.
  intros Hd Hnow r1 r2 r3.
  assert (H2 : vars_of r2 =
               mkVars true false (t2 + Duration m2)
                      (findName modes (Duration m2) "Custom")).
  { subst r2. rewrite handle_control, startSession_run.
    replace (Duration m2 <? 0) with false by (symmetry; apply Z.ltb_ge; lia).
    reflexivity. }
  subst r3. rewrite H2.
  rewrite handle_tick_running by (cbn; auto).
  repeat split.
Qed.

Lemma restart_replaces_end_time_witness :
  let m1 := mkMode "Milk" (3 * Time.Minute) "" in
  let m2 := mkMode "Drop" (10 * Time.Minute) "" in
  let r1 := handle (Control m1 0) LoopGoroutine zeroVars in
  let r2 := handle (Control m2 (2 * Time.Minute)) LoopGoroutine (vars_of r1) in
  let r3 := handle (Tick (5 * Time.Minute)) LoopGoroutine (vars_of r2) in
  in_state (vars_of r3) ActiveTimed /\
  sessionEndTime (vars_of r3) = 2 * Time.Minute + 10 * Time.Minute /\
  power_calls (trace_of r3) = [].
Proof.
  intros m1 m2.
  apply (restart_replaces_end_time LoopGoroutine zeroVars m1 m2 0
           (2 * Time.Minute) (5 * Time.Minute)).
  - vm_compute. discriminate.
  - reflexivity.
Defined.

Lemma loop_ticks_infinite (ticks : list Event) (th : Thread) :
  Forall is_Tick ticks ->
  forall v, isInfinite v = true -> loop ticks th v = (false, v, []).
Proof.
  induction 1 as [|ev rest Hev _ IH]; intros v Hinf; [reflexivity|].
  destruct ev; try contradiction.
  rewrite (loop_continue _ _ _ _ _ _ (handle_tick_infinite th v now Hinf)).
  now rewrite IH.
Qed.

(** X9: an infinite session does not end by itself: after a start with a
    negative duration, any number of ticks, at any times, leaves the
    variables as the start left them and makes no call at all. *)
Theorem infinite_session_never_expires (th : Thread) (v : Vars)
        (m : EspressoMode) (now : Time.Instant) (ticks : list Event) :
  Duration m < 0 -> Forall is_Tick ticks ->
  let r1 := handle (Control m now) th v in
  let r2 := loop ticks th (vars_of r1) in
  in_state (vars_of r1) ActiveInfinite /\
  vars_of r2 = vars_of r1 /\ trace_of r2 = [].
Proof.
  intros Hd Hticks r1 r2.
  destruct (start_infinite_vars th v m now Hd) as [Hact Hinf].
  fold r1 in Hact, Hinf.
  split; [split; assumption|].
  subst r2. now rewrite loop_ticks_infinite.
Qed.

Lemma infinite_session_never_expires_witness :
  let pure := mkMode "Pure Caffeine" (-1) "Maximum alertness, use with caution." in
  let r1 := handle (Control pure 0) LoopGoroutine zeroVars in
  let r2 := loop [Tick 1; Tick 9223372036854775807] LoopGoroutine (vars_of r1) in
  in_state (vars_of r1) ActiveInfinite /\
  vars_of r2 = vars_of r1 /\ trace_of r2 = [].
Proof.
  intros pure.
  apply (infinite_session_never_expires LoopGoroutine zeroVars pure 0
           [Tick 1; Tick 9223372036854775807]).
  - reflexivity.
  - repeat constructor.
Defined.

(** ** The fields of the countdown *)

(** X10: for every argument, the countdown is "<h>h <m>m <s>s" with hours
    that are not negative and with minutes and seconds between 0 and 59. *)
Theorem countdown_fields_in_range (d : Time.Duration) :
  exists h m s,
    formatDuration d =
      Fmt.cat [Fmt.itoa h; "h "; Fmt.itoa m; "m "; Fmt.itoa s; "s"]%string /\
    0 <= h /\ 0 <= m < 60 /\ 0 <= s < 60.
Proof.
  rewrite formatDuration_fields. cbv zeta.
  set (raw := Float64.to_int (Time.Seconds (Time.Round d Time.Second))).
  set (total := if raw <? 0 then 0 else raw).
  assert (Htotal : 0 <= total) by (subst total; destruct (Z.ltb_spec raw 0); lia).
  exists (Z.quot total 3600), (Z.rem (Z.quot total 60) 60), (Z.rem total 60).
  split; [reflexivity|].
  assert (0 <= Z.quot total 60) by (apply Z.quot_pos; lia).
  split; [apply Z.quot_pos; lia|].
  split; apply Z.rem_bound_pos; lia.
Qed.

(** * Properties of the files *)

Lemma Equal_eq (a : list Byte.byte) :
  forall b, Bytes.Equal a b = true <-> a = b.
Proof.
  induction a as [|x a IH]; intros [|y b]; cbn [Bytes.Equal];
    try (split; [discriminate|discriminate]); [split; reflexivity|].
  rewrite andb_true_iff, IH. split.
  - intros [Hxy ->]. apply Byte.byte_dec_bl in Hxy. now subst.
  - intros [= -> ->]. split; [now apply Byte.byte_dec_lb|reflexivity].
Qed.

Lemma Equal_refl (a : list Byte.byte) : Bytes.Equal a a = true.
Proof. now apply Equal_eq. Qed.

(** ** Configuration *)

Section ConfigFacts.

Variable Join : string -> string -> string.
Variable env : Env.
Variable MarshalIndent : Config -> option (list Byte.byte).
Variable Unmarshal : list Byte.byte -> option Config.

Let path : string := settingsPath Join env.
Let load : Files -> Config * Files := loadConfig Join env MarshalIndent Unmarshal.

(** X11: whatever the disk holds and whatever the JSON decoder returns, the
    configuration that [loadConfig] gives has a language that is not
    empty. *)
Theorem loadConfig_language_not_empty (w : Files) :
  Language (fst (load w)) <> EmptyString.
Proof.
  unfold load. unfold loadConfig, Os.ReadFile.
  destruct (Os.files (disk w) (settingsPath Join env)) as [ | |data];
    cbn [fst]; try discriminate.
  destruct (Unmarshal data) as [cfg|]; cbn [fst]; [|discriminate].
  destruct (String.eqb_spec (Language cfg) "") as [Hempty|Hlang];
    cbn [fst]; [discriminate|assumption].
Qed.

(** X12: a settings file that decodes to a configuration with a language
    is returned as it is, and nothing is written. *)
Theorem loadConfig_keeps_valid_file (w : Files) (data : list Byte.byte)
        (cfg : Config) :
  Os.files (disk w) path = Os.Data data ->
  Unmarshal data = Some cfg ->
  Language cfg <> EmptyString ->
  load w = (cfg, w).
Proof.
  intros Hfile Hjson Hlang. unfold load, path in *.
  unfold loadConfig, Os.ReadFile. rewrite Hfile, Hjson.
  destruct (String.eqb_spec (Language cfg) ""); [contradiction|reflexivity].
Qed.

(** X13: when the settings file is missing, cannot be read, does not
    decode, or decodes without a language, [loadConfig] returns the
    default configuration and attempts one write, of the encoded default,
    to the settings path; where that path can be written, the file then
    holds it.  When the encoder fails nothing is written. *)
Theorem loadConfig_repairs (w : Files) :
  (forall data, Os.files (disk w) path = Os.Data data ->
     Unmarshal data = None \/
     exists cfg, Unmarshal data = Some cfg /\ Language cfg = EmptyString) ->
  fst (load w) = mkConfig defaultLanguage /\
  match MarshalIndent (mkConfig defaultLanguage) with
  | Some bytes =>
      written (snd (load w)) = written w ++ [(path, bytes)] /\
      (Os.writable (disk w) path = true ->
       Os.files (disk (snd (load w))) path = Os.Data bytes)
  | None => snd (load w) = w
  end.
Proof.
  intros Hbad. unfold load, path in *.
  assert (Hsave :
    let r := snd (saveConfig Join env MarshalIndent (mkConfig defaultLanguage) w) in
    match MarshalIndent (mkConfig defaultLanguage) with
    | Some bytes =>
        written r = written w ++ [(settingsPath Join env, bytes)] /\
        (Os.writable (disk w) (settingsPath Join env) = true ->
         Os.files (disk r) (settingsPath Join env) = Os.Data bytes)
    | None => r = w
    end).
  { cbn zeta. unfold saveConfig.
    destruct (MarshalIndent (mkConfig defaultLanguage)) as [bytes|];
      [|reflexivity].
    unfold Os.WriteFile.
    destruct (Os.writable (disk w) (settingsPath Join env)) eqn:Hw;
      cbn [snd written disk Os.files].
    - split; [reflexivity|]. intros _. now rewrite String.eqb_refl.
    - split; [reflexivity|discriminate]. }
  unfold loadConfig, Os.ReadFile.
  destruct (Os.files (disk w) (settingsPath Join env)) as [ | |data] eqn:Hfile;
    cbn [fst snd]; try (split; [reflexivity|exact Hsave]).
  destruct (Hbad data eq_refl) as [->|(cfg & -> & Hempty)].
  - split; [reflexivity|exact Hsave].
  - rewrite Hempty. cbn [String.eqb fst snd]. split; [reflexivity|exact Hsave].
Qed.

(** X14: when the settings path can be written and the encoded default
    decodes to the default again, loading twice is loading once: the
    second [loadConfig] returns the same configuration and writes
    nothing. *)
Theorem loadConfig_twice (w : Files) (bytes : list Byte.byte) :
  Os.writable (disk w) path = true ->
  MarshalIndent (mkConfig defaultLanguage) = Some bytes ->
  Unmarshal bytes = Some (mkConfig defaultLanguage) ->
  load (snd (load w)) = load w.
Proof.
  intros Hw Henc Hdec.
  assert (Hsaved : forall w0,
            Os.writable (disk w0) path = true ->
            load (snd (saveConfig Join env MarshalIndent
                         (mkConfig defaultLanguage) w0)) =
            (mkConfig defaultLanguage,
             snd (saveConfig Join env MarshalIndent
                    (mkConfig defaultLanguage) w0))).
  { intros w0 Hw0. apply loadConfig_keeps_valid_file with (data := bytes).
    - unfold path in *. unfold saveConfig. rewrite Henc. unfold Os.WriteFile.
      rewrite Hw0. cbn [snd disk Os.files]. now rewrite String.eqb_refl.
    - exact Hdec.
    - discriminate. }
  unfold load, path in *. unfold loadConfig at 2 3, Os.ReadFile.
  destruct (Os.files (disk w) (settingsPath Join env)) as [ | |data] eqn:Hfile;
    cbn [fst snd]; try (now apply Hsaved).
  destruct (Unmarshal data) as [cfg|] eqn:Hjson; [|now apply Hsaved].
  destruct (String.eqb_spec (Language cfg) "") as [Hempty|Hlang];
    cbn [fst snd]; [now apply Hsaved|].
  now apply loadConfig_keeps_valid_file with (data := data).
Qed.

End ConfigFacts.

Lemma loadConfig_keeps_valid_file_witness :
  let Join := fun a b => (a ++ "/" ++ b)%string in
  let env := mkEnv "C:/Users/me/AppData/Roaming" None None "C:/Temp" in
  let MarshalIndent := fun c => Some (list_byte_of_string (Language c)) in
  let Unmarshal := fun b => Some (mkConfig (string_of_list_byte b)) in
  let w := mkFiles (Os.mkDisk (fun _ => Os.Data (list_byte_of_string "fr-FR"))
                              (fun _ => true)) [] in
  loadConfig Join env MarshalIndent Unmarshal w = (mkConfig "fr-FR", w).
Proof.
  intros Join env MarshalIndent Unmarshal w.
  apply (loadConfig_keeps_valid_file Join env MarshalIndent Unmarshal w
           (list_byte_of_string "fr-FR")).
  - reflexivity.
  - reflexivity.
  - discriminate.
Defined.

Lemma loadConfig_repairs_witness :
  let Join := fun a b => (a ++ "/" ++ b)%string in
  let env := mkEnv "" None None "C:/Temp" in
  let MarshalIndent := fun c => Some (list_byte_of_string (Language c)) in
  let Unmarshal := fun b => Some (mkConfig (string_of_list_byte b)) in
  let w := mkFiles (Os.mkDisk (fun _ => Os.Missing) (fun _ => true)) [] in
  fst (loadConfig Join env MarshalIndent Unmarshal w) = mkConfig "en-US" /\
  written (snd (loadConfig Join env MarshalIndent Unmarshal w)) =
    [("C:/Temp/Espresso/settings.json"%string, list_byte_of_string "en-US")].
Proof.
  intros Join env MarshalIndent Unmarshal w.
  destruct (loadConfig_repairs Join env MarshalIndent Unmarshal w) as [Hcfg Hsave].
  - intros data Hdata. discriminate Hdata.
  - split; [exact Hcfg|]. exact (proj1 Hsave).
Defined.

Lemma loadConfig_twice_witness :
  let Join := fun a b => (a ++ "/" ++ b)%string in
  let env := mkEnv "" (Some "C:/Config"%string) None "C:/Temp" in
  let MarshalIndent := fun c => Some (list_byte_of_string (Language c)) in
  let Unmarshal := fun b => Some (mkConfig (string_of_list_byte b)) in
  let w := mkFiles (Os.mkDisk (fun _ => Os.Unreadable) (fun _ => true)) [] in
  loadConfig Join env MarshalIndent Unmarshal
    (snd (loadConfig Join env MarshalIndent Unmarshal w)) =
  loadConfig Join env MarshalIndent Unmarshal w.
Proof.
  intros Join env MarshalIndent Unmarshal w.
  apply (loadConfig_twice Join env MarshalIndent Unmarshal w
           (list_byte_of_string "en-US")); reflexivity.
Defined.

(** ** Bundled resources *)

Lemma writeFile_other (name other : string) (data : list Byte.byte) (w : Files) :
  other <> name ->
  Os.files (disk (writeFile name data w)) other = Os.files (disk w) other.
Proof.
  intros Hne. unfold writeFile, Os.WriteFile.
  destruct (Os.writable (disk w) name); cbn [fst disk Os.files]; [|reflexivity].
  destruct (String.eqb_spec other name); [contradiction|reflexivity].
Qed.

Lemma writeFile_same (name : string) (data : list Byte.byte) (w : Files) :
  Os.writable (disk w) name = true ->
  Os.files (disk (writeFile name data w)) name = Os.Data data.
Proof.
  intros Hw. unfold writeFile, Os.WriteFile. rewrite Hw.
  cbn [fst disk Os.files]. now rewrite String.eqb_refl.
Qed.

Lemma writeFile_writable (name other : string) (data : list Byte.byte) (w : Files) :
  Os.writable (disk (writeFile name data w)) other = Os.writable (disk w) other.
Proof.
  unfold writeFile, Os.WriteFile.
  now destruct (Os.writable (disk w) name).
Qed.

(** One target: what [ensureTarget] leaves. *)
Lemma ensureTarget_cases (w : Files) (strict : bool) (name : string)
      (data : list Byte.byte) :
  let w' := ensureTarget w (strict, name, data) in
  (w' = w /\
   (Os.files (disk w) name = Os.Data data \/
    (strict = false /\ data = [] /\ Os.files (disk w) name = Os.Unreadable))) \/
  (w' = writeFile name data w /\ Os.files (disk w) name <> Os.Data data).
Proof.
  cbn zeta. unfold ensureTarget.
  destruct (Os.files (disk w) name) as [ | |content] eqn:Hfile.
  - right. split; [reflexivity|discriminate].
  - destruct strict; cbn [orb]; [right; split; [reflexivity|discriminate]|].
    destruct data as [|x data]; cbn [Bytes.Equal negb].
    + left. auto.
    + right. split; [reflexivity|discriminate].
  - destruct (Bytes.Equal content data) eqn:Heq.
    + apply Equal_eq in Heq. subst. left. auto.
    + right. split; [reflexivity|]. intros [= ->].
      now rewrite Equal_refl in Heq.
Qed.

Lemma ensureTarget_other (w : Files) (target : bool * string * list Byte.byte)
      (other : string) :
  other <> targetPath target ->
  Os.files (disk (ensureTarget w target)) other = Os.files (disk w) other.
Proof.
  destruct target as [[strict name] data]. cbn [targetPath fst snd]. intros Hne.
  destruct (ensureTarget_cases w strict name data) as [[-> _]|[-> _]];
    [reflexivity|now apply writeFile_other].
Qed.

Lemma ensureTarget_writable (w : Files) (target : bool * string * list Byte.byte)
      (other : string) :
  Os.writable (disk (ensureTarget w target)) other = Os.writable (disk w) other.
Proof.
  destruct target as [[strict name] data].
  destruct (ensureTarget_cases w strict name data) as [[-> _]|[-> _]];
    [reflexivity|apply writeFile_writable].
Qed.

Lemma fold_ensure_other (ts : list (bool * string * list Byte.byte)) (other : string) :
  ~ In other (map targetPath ts) ->
  forall w, Os.files (disk (fold_left ensureTarget ts w)) other =
            Os.files (disk w) other.
Proof.
  induction ts as [|t ts IH]; intros Hout w; [reflexivity|].
  cbn [fold_left]. cbn [map In] in Hout.
  rewrite IH by tauto. apply ensureTarget_other. intros ->. tauto.
Qed.

Lemma fold_ensure_writable (ts : list (bool * string * list Byte.byte)) (other : string) :
  forall w, Os.writable (disk (fold_left ensureTarget ts w)) other =
            Os.writable (disk w) other.
Proof.
  induction ts as [|t ts IH]; intros w; [reflexivity|].
  cbn [fold_left]. rewrite IH. apply ensureTarget_writable.
Qed.

(** Targets that are all settled leave nothing to do. *)
Lemma fold_ensure_settled (ts : list (bool * string * list Byte.byte)) (w : Files) :
  Forall (fun t =>
            Os.files (disk w) (targetPath t) = Os.Data (snd t) \/
            (fst (fst t) = false /\ snd t = [] /\
             Os.files (disk w) (targetPath t) = Os.Unreadable)) ts ->
  fold_left ensureTarget ts w = w.
Proof.
  induction 1 as [|[[strict name] data] ts Ht _ IH]; [reflexivity|].
  cbn [fold_left]. cbn [targetPath fst snd] in Ht.
  assert (Hsame : ensureTarget w (strict, name, data) = w).
  { destruct (ensureTarget_cases w strict name data) as [[-> _]|[_ Hne]];
      [reflexivity|].
    destruct Ht as [Ht|(-> & -> & Ht)]; [contradiction|].
    unfold ensureTarget. now rewrite Ht. }
  now rewrite Hsame.
Qed.

Lemma fold_ensure_post (ts : list (bool * string * list Byte.byte)) :
  NoDup (map targetPath ts) ->
  forall w,
    (forall t, In t ts -> Os.writable (disk w) (targetPath t) = true) ->
    Forall (fun t =>
              Os.files (disk (fold_left ensureTarget ts w)) (targetPath t) =
                Os.Data (snd t) \/
              (fst (fst t) = false /\ snd t = [] /\
               Os.files (disk w) (targetPath t) = Os.Unreadable /\
               Os.files (disk (fold_left ensureTarget ts w)) (targetPath t) =
                 Os.Unreadable)) ts.
Proof.
  induction ts as [|[[strict name] data] ts IH]; intros Hdup w Hw;
    [constructor|].
  cbn [map targetPath fst snd] in Hdup. apply NoDup_cons_iff in Hdup.
  destruct Hdup as [Hout Hdup]. cbn [fold_left].
  set (w1 := ensureTarget w (strict, name, data)).
  constructor.
  - cbn [targetPath fst snd].
    rewrite (fold_ensure_other ts name Hout w1).
    destruct (ensureTarget_cases w strict name data) as [[Hsame Hset]|[Hwrite _]];
      fold w1 in Hsame || fold w1 in Hwrite.
    + rewrite Hsame. destruct Hset as [Hset|(Hs & Hd & Hu)]; [now left|].
      right. auto.
    + left. rewrite Hwrite. apply writeFile_same.
      apply (Hw (strict, name, data)). now left.
  - assert (Hw1 : forall t, In t ts -> Os.writable (disk w1) (targetPath t) = true).
    { intros t Ht. subst w1. rewrite ensureTarget_writable. apply Hw. now right. }
    specialize (IH Hdup w1 Hw1).
    rewrite Forall_forall in IH |- *. intros t Ht.
    destruct (IH t Ht) as [Hdata|(Hs & Hd & Hu & Hu')]; [now left|].
    right. repeat split; try assumption.
    rewrite <- Hu. symmetry. subst w1. apply ensureTarget_other.
    cbn [targetPath fst snd]. intros Heq. apply Hout. rewrite <- Heq.
    now apply in_map.
Qed.


Section ResourceFacts.

Variable Join : string -> string -> string.
Variable Dir : string -> string.
Variable env : Env.
Variable licenseData iconData icoffData : list Byte.byte.
Variable thirdPartyLicenses : list WalkItem.

Let ensure : Files -> Files :=
  ensureResourceFiles Join Dir env licenseData iconData icoffData
                      thirdPartyLicenses.
Let targets : list (bool * string * list Byte.byte) :=
  resourceTargets Join Dir env licenseData iconData icoffData
                  thirdPartyLicenses.

Lemma strict_block (name : string) (data : list Byte.byte) (w : Files) :
  (let '(diskData, err) := Os.ReadFile (disk w) name in
   if Os.IsNotExist err || Os.failed err || negb (Bytes.Equal diskData data)
   then writeFile name data w else w) =
  ensureTarget w (true, name, data).
Proof.
  unfold Os.ReadFile, ensureTarget.
  destruct (Os.files (disk w) name) as [ | |content]; cbn; try reflexivity.
  now destruct (Bytes.Equal content data).
Qed.

Lemma copyThirdParty_fold (dir : string) (items : list WalkItem) :
  forall w,
    fold_left (copyThirdParty Join dir) items w =
    fold_left ensureTarget
      (map (fun it =>
              (false,
               Join dir (Strings.TrimPrefix (itemPath it) "THIRD_PARTY_LICENSES/"),
               itemData it))
           (filter (fun it => negb (itemErr it || itemIsDir it)) items)) w.
Proof.
  induction items as [|it items IH]; intros w; [reflexivity|].
  cbn [fold_left filter]. rewrite IH. unfold copyThirdParty at 1.
  destruct (itemErr it || itemIsDir it); cbn [negb]; [reflexivity|].
  cbn [map fold_left]. f_equal.
  unfold Os.ReadFile, ensureTarget.
  destruct (Os.files (disk w) _) as [ | |content]; cbn; try reflexivity.
  now destruct (Bytes.Equal content (itemData it)).
Qed.

(** The code is the fold of [ensureTarget] over its targets. *)
Lemma ensureResourceFiles_fold (w : Files) :
  ensure w = fold_left ensureTarget targets w.
Proof.
  unfold ensure, targets, ensureResourceFiles, resourceTargets.
  rewrite fold_left_app. cbn [fold_left].
  rewrite <- copyThirdParty_fold.
  pose proof (strict_block (licenseFilePath Join Dir env) licenseData w) as H1.
  destruct (Os.ReadFile (disk w) (licenseFilePath Join Dir env)) as [d1 e1].
  cbv zeta. rewrite H1.
  set (w1 := ensureTarget w (true, licenseFilePath Join Dir env, licenseData)).
  pose proof (strict_block (iconPath Join Dir env) iconData w1) as H2.
  destruct (Os.ReadFile (disk w1) (iconPath Join Dir env)) as [d2 e2].
  rewrite H2.
  set (w2 := ensureTarget w1 (true, iconPath Join Dir env, iconData)).
  pose proof (strict_block (icoffPath Join Dir env) icoffData w2) as H3.
  destruct (Os.ReadFile (disk w2) (icoffPath Join Dir env)) as [d3 e3].
  rewrite H3. reflexivity.
Qed.

(** X15: when the target paths are pairwise different and can be written,
    [ensureResourceFiles] leaves every target with its embedded content:
    always for the licence and the two icons, and for a third-party file
    unless its path could not be read and its embedded content is empty,
    in which case the path is left as it was. *)
Theorem ensureResourceFiles_up_to_date (w : Files) :
  NoDup (map targetPath targets) ->
  (forall t, In t targets -> Os.writable (disk w) (targetPath t) = true) ->
  forall strict name data,
    In (strict, name, data) targets ->
    Os.files (disk (ensure w)) name = Os.Data data \/
    (strict = false /\ data = [] /\
     Os.files (disk w) name = Os.Unreadable /\
     Os.files (disk (ensure w)) name = Os.Unreadable).
Proof.
  intros Hdup Hw strict name data Hin.
  rewrite ensureResourceFiles_fold.
  pose proof (fold_ensure_post targets Hdup w Hw) as Hpost.
  rewrite Forall_forall in Hpost.
  exact (Hpost (strict, name, data) Hin).
Qed.

(** X16: under the same conditions a second run finds nothing to do: it
    returns the disk and the list of writes of the first run. *)
Theorem ensureResourceFiles_twice (w : Files) :
  NoDup (map targetPath targets) ->
  (forall t, In t targets -> Os.writable (disk w) (targetPath t) = true) ->
  ensure (ensure w) = ensure w.
Proof.
  intros Hdup Hw. rewrite (ensureResourceFiles_fold (ensure w)).
  apply fold_ensure_settled.
  pose proof (fold_ensure_post targets Hdup w Hw) as Hpost.
  rewrite <- ensureResourceFiles_fold in Hpost.
  eapply Forall_impl; [|exact Hpost].
  intros t [Hdata|(Hs & Hd & _ & Hu)]; [now left|right; auto].
Qed.


(** X18: a disk whose targets all hold their embedded content is left as
    it is, and no write is attempted. *)
Theorem ensureResourceFiles_nothing_to_do (w : Files) :
  (forall t, In t targets ->
     Os.files (disk w) (targetPath t) = Os.Data (snd t)) ->
  ensure w = w.
Proof.
  intros Hheld. rewrite ensureResourceFiles_fold.
  apply fold_ensure_settled. apply Forall_forall.
  intros t Ht. left. now apply Hheld.
Qed.

End ResourceFacts.

Lemma ensureResourceFiles_up_to_date_witness :
  let Join := fun a b => (a ++ "/" ++ b)%string in
  let Dir := fun _ : string => "C:/Espresso"%string in
  let env := mkEnv "C:" None None "T" in
  let items := [ mkWalkItem "THIRD_PARTY_LICENSES" false true [];
                 mkWalkItem "THIRD_PARTY_LICENSES/toast/LICENSE" false false
                            [Byte.x43] ] in
  let w := mkFiles (Os.mkDisk (fun _ => Os.Missing) (fun _ => true)) [] in
  let w' := ensureResourceFiles Join Dir env [Byte.x41] [Byte.x42] [] items w in
  Os.files (disk w') "C:/Espresso/THIRD_PARTY_LICENSES/toast/LICENSE" =
    Os.Data [Byte.x43] \/
  (false = false /\ [Byte.x43] = [] /\
   Os.files (disk w) "C:/Espresso/THIRD_PARTY_LICENSES/toast/LICENSE" =
     Os.Unreadable /\
   Os.files (disk w') "C:/Espresso/THIRD_PARTY_LICENSES/toast/LICENSE" =
     Os.Unreadable).
Proof.
  intros Join Dir env items w.
  apply (ensureResourceFiles_up_to_date Join Dir env [Byte.x41] [Byte.x42] []
           items w).
  - vm_compute. repeat constructor; cbn; intuition discriminate.
  - reflexivity.
  - vm_compute. do 3 right. left. reflexivity.
Defined.

Lemma ensureResourceFiles_twice_witness :
  let Join := fun a b => (a ++ "/" ++ b)%string in
  let Dir := fun _ : string => "C:/Espresso"%string in
  let env := mkEnv "C:" None None "T" in
  let items := [ mkWalkItem "THIRD_PARTY_LICENSES/NOTICE" false false [] ] in
  let w := mkFiles (Os.mkDisk (fun _ => Os.Unreadable) (fun _ => true)) [] in
  let ensure := ensureResourceFiles Join Dir env [Byte.x41] [Byte.x42] [] items in
  ensure (ensure w) = ensure w.
Proof.
  intros Join Dir env items w.
  apply (ensureResourceFiles_twice Join Dir env [Byte.x41] [Byte.x42] []
           items w).
  - vm_compute. repeat constructor; cbn; intuition discriminate.
  - reflexivity.
Defined.


Lemma ensureResourceFiles_nothing_to_do_witness :
  let Join := fun a b => (a ++ "/" ++ b)%string in
  let Dir := fun _ : string => "C:/Espresso"%string in
  let env := mkEnv "C:" None None "T" in
  let w := mkFiles (Os.mkDisk (fun _ => Os.Data [Byte.x41]) (fun _ => false))
                   [("C:/old"%string, [])] in
  ensureResourceFiles Join Dir env [Byte.x41] [Byte.x41] [Byte.x41] [] w = w.
Proof.
  intros Join Dir env w.
  apply (ensureResourceFiles_nothing_to_do Join Dir env
           [Byte.x41] [Byte.x41] [Byte.x41] [] w).
  intros t Ht. vm_compute in Ht.
  destruct Ht as [<-|[<-|[<-|[]]]]; reflexivity.
Defined.
